(** * belaUI: the session and state-synchronisation protocol of [belaUI.js]

    A shallow embedding of the websocket control plane of belaUI: token
    issuance and validation, the validation and commit of the streaming
    configuration, the streaming flag with its liveness poll, and the
    dispatch of inbound frames.

    The program is JavaScript running on a single-threaded event loop.
    Values that come out of [JSON.parse] are embedded untyped ([value]);
    the globals of the file, the connection objects, the files it writes,
    the processes it starts and the callbacks it leaves pending are the
    fields of one record ([world]); every function of the file is a
    computation in a state-and-exception monad over that record, and the
    event loop is a [step] function over the events the runtime delivers.

    What lies outside the file is taken as follows.
    - [bcrypt.compare] and [dns.lookup] return at once and call back
      later, once, with a verdict that is the runtime's to give: the
      callback is kept in [pending] and an event completes it.
    - [crypto.randomBytes], the process list read by [updateStatus] and
      the interface list built by [updateNetif] arrive with the event.
    - Writing a file, starting a process and [conn.send] succeed; what
      was written, started and sent is recorded in the world.
    - [JSON.stringify] is not applied: an outbound frame is kept as its
      type and payload.  [console.log] is left out.
    - The conversions between strings and numbers belong to the engine
      ([Engine]); everything holds for any engine. *)

From Stdlib Require Import QArith Lqa Ascii String DecimalString.
From stdpp Require Import base option list gmap strings.

Close Scope Q_scope.
Open Scope string_scope.
Set Warnings "-register-all".

(** ** JavaScript values *)

(** A number as [JSON.parse] can produce it: a finite double, which is a
    rational, or an infinity (a literal such as [1e999]).  The program
    only ever compares numbers, so the rationals stand for the doubles
    without loss.  [NaN] is not a JSON number; where a conversion yields
    it, it is [None]. *)
Inductive number :=
| Fin (q : Q)
| PosInf
| NegInf.

(** The values of parsed frames.  An object lists its own enumerable
    properties, each key once, in the order [for ... in] visits them; a
    statement that depends on the keys being distinct says so ([NoDup]).
    JSON arrays are not part of the embedding. *)
Inductive value :=
| VUndef
| VNull
| VBool (b : bool)
| VNum (n : number)
| VStr (s : string)
| VObj (props : list (string * value)).

Definition num (z : Z) : value := VNum (Fin (inject_Z z)).

Fixpoint assoc (k : string) (props : list (string * value)) : option value :=
  match props with
  | [] => None
  | (k', v) :: rest => if String.eqb k k' then Some v else assoc k rest
  end.

(** [o[k]] for a value [o] that is neither [undefined] nor [null], and a
    key [k] that no prototype defines (every key the program reads from a
    frame is of that kind). *)
Definition own (o : value) (k : string) : value :=
  match o with
  | VObj props => default VUndef (assoc k props)
  | _ => VUndef
  end.

(** The keys [for (const k in o)] visits: the own properties of an
    object, the indices of a string, nothing for the other values. *)
Definition index_key (i : nat) : string := NilZero.string_of_uint (Nat.to_uint i).

Definition keys (o : value) : list string :=
  match o with
  | VObj props => map fst props
  | VStr s => map index_key (seq 0 (String.length s))
  | _ => []
  end.

(** [v == undefined] (also [v == null]): loose equality identifies the two. *)
Definition nullish (v : value) : bool :=
  match v with
  | VUndef | VNull => true
  | _ => false
  end.

(** [typeof v == 'string'] *)
Definition is_string (v : value) : bool :=
  match v with
  | VStr _ => true
  | _ => false
  end.

(** ToBoolean *)
Definition truthy (v : value) : bool :=
  match v with
  | VUndef | VNull => false
  | VBool b => b
  | VNum (Fin q) => negb (Qeq_bool q 0)
  | VNum _ => true
  | VStr s => negb (String.eqb s "")
  | VObj _ => true
  end.

(** The properties every object literal inherits from [Object.prototype].
    Each is a function, except [__proto__], which is the prototype
    itself: reading any of them yields a truthy value. *)
Definition Object_prototype : list string :=
  [ "constructor"; "hasOwnProperty"; "isPrototypeOf"; "propertyIsEnumerable";
    "toLocaleString"; "toString"; "valueOf"; "__proto__";
    "__defineGetter__"; "__defineSetter__"; "__lookupGetter__"; "__lookupSetter__" ].

Definition inherited (k : string) : bool :=
  existsb (String.eqb k) Object_prototype.

(** ** The parts of the language runtime the program leans on *)

(** The conversions between strings and numbers that the comparison
    operators and computed property keys apply are the engine's, not the
    repository's; the development is parametric in them. *)
Class Engine := {
  StringToNumber : string -> option number;
  NumberToString : number -> string
}.

(** Primitive values, the results of ToPrimitive. *)
Inductive prim :=
| PUndef
| PNull
| PBool (b : bool)
| PNum (n : number)
| PStr (s : string).

Definition num_lt (x y : number) : bool :=
  match x, y with
  | Fin a, Fin b => negb (Qle_bool b a)
  | NegInf, Fin _ | NegInf, PosInf | Fin _, PosInf => true
  | _, _ => false
  end.

Definition ToNumber `{Engine} (p : prim) : option number :=
  match p with
  | PUndef => None
  | PNull => Some (Fin 0)
  | PBool true => Some (Fin 1)
  | PBool false => Some (Fin 0)
  | PNum n => Some n
  | PStr s => StringToNumber s
  end.

(** IsLessThan on primitives: [None] is the undefined result that [NaN]
    gives. Two strings compare by code units. *)
Definition IsLessThan `{Engine} (x y : prim) : option bool :=
  match x, y with
  | PStr s, PStr t => Some (String.ltb s t)
  | _, _ =>
      match ToNumber x, ToNumber y with
      | Some a, Some b => Some (num_lt a b)
      | _, _ => None
      end
  end.

(** ** Data model *)

(** The stored configuration, [config]: the fields the program reads and
    writes. *)
Record Config := {
  password_hash : value;
  delay : value;
  pipeline : value;
  min_br : value;
  max_br : value;
  srt_latency : value;
  srt_streamid : value;
  srtla_addr : value;
  srtla_port : value
}.

(** The text of an error message: string literals concatenated with
    values of the frame. *)
Inductive piece :=
| S (s : string)
| V (v : value).

Definition text := list piece.

(** The payload of an outbound frame, by type. *)
Inductive data :=
| DError (msg : text)
| DStatus (is_streaming : bool)
| DAuth (success : bool) (auth_token : option string)
| DConfig (c : Config)
| DPipelines (names : gmap string string)
| DNetif (n : value)
| DBitrate (min max : value).

(** An outbound frame [{type: data}]. *)
Definition message : Type := string * data.

Definition buildMsg (type : string) (d : data) : message := (type, d).

(** A connection object with the two properties the program adds to it. *)
Record conn := {
  isAuthed : bool;
  authToken : option string
}.

Definition new_conn : conn := {| isAuthed := false; authToken := None |}.

(** The function passed to [updateConfig] as [callback]; [start]'s
    closure is the only one in the program. *)
Inductive callback :=
| SpawnRunner.

(** A callback the program has handed to [bcrypt.compare] or
    [dns.lookup], with the variables its closure captured. *)
Inductive async :=
| Compare (c : nat) (msg : value)
| Lookup (c : nat) (params : value) (pipeline : value) (cb : callback).

(** Processes started through [child_process]. *)
Inductive proc :=
| Spawn (cmd : string) (args : list value)
| SpawnSync (cmd : string) (args : list string).

Record world := {
  (* globals *)
  config : Config;
  tempTokens : gmap string value;
  persistentTokens : gmap string value;
  netif : value;
  isStreaming : bool;
  (* files *)
  config_file : Config;
  tokens_file : gmap string value;
  bitrate_file : option (value * value);
  pipelines : gmap string (string * string);
  (* connections: the objects by identity, [wss.clients], frames sent *)
  conns : gmap nat conn;
  clients : list nat;
  sent : list (nat * message);
  (* the operating system: pending callbacks, processes started *)
  pending : list async;
  procs : list proc
}.

(** Assignments to one global, file or connection at a time. *)
Definition set_config (x : Config) (w : world) : world :=
  {| config := x; tempTokens := tempTokens w;
     persistentTokens := persistentTokens w; netif := netif w;
     isStreaming := isStreaming w; config_file := config_file w;
     tokens_file := tokens_file w; bitrate_file := bitrate_file w;
     pipelines := pipelines w; conns := conns w; clients := clients w;
     sent := sent w; pending := pending w; procs := procs w |}.

Definition set_tempTokens (x : gmap string value) (w : world) : world :=
  {| config := config w; tempTokens := x;
     persistentTokens := persistentTokens w; netif := netif w;
     isStreaming := isStreaming w; config_file := config_file w;
     tokens_file := tokens_file w; bitrate_file := bitrate_file w;
     pipelines := pipelines w; conns := conns w; clients := clients w;
     sent := sent w; pending := pending w; procs := procs w |}.

Definition set_persistentTokens (x : gmap string value) (w : world) : world :=
  {| config := config w; tempTokens := tempTokens w; persistentTokens := x;
     netif := netif w; isStreaming := isStreaming w;
     config_file := config_file w; tokens_file := tokens_file w;
     bitrate_file := bitrate_file w; pipelines := pipelines w;
     conns := conns w; clients := clients w; sent := sent w;
     pending := pending w; procs := procs w |}.

Definition set_netif (x : value) (w : world) : world :=
  {| config := config w; tempTokens := tempTokens w;
     persistentTokens := persistentTokens w; netif := x;
     isStreaming := isStreaming w; config_file := config_file w;
     tokens_file := tokens_file w; bitrate_file := bitrate_file w;
     pipelines := pipelines w; conns := conns w; clients := clients w;
     sent := sent w; pending := pending w; procs := procs w |}.

Definition set_isStreaming (x : bool) (w : world) : world :=
  {| config := config w; tempTokens := tempTokens w;
     persistentTokens := persistentTokens w; netif := netif w;
     isStreaming := x; config_file := config_file w;
     tokens_file := tokens_file w; bitrate_file := bitrate_file w;
     pipelines := pipelines w; conns := conns w; clients := clients w;
     sent := sent w; pending := pending w; procs := procs w |}.

Definition set_config_file (x : Config) (w : world) : world :=
  {| config := config w; tempTokens := tempTokens w;
     persistentTokens := persistentTokens w; netif := netif w;
     isStreaming := isStreaming w; config_file := x;
     tokens_file := tokens_file w; bitrate_file := bitrate_file w;
     pipelines := pipelines w; conns := conns w; clients := clients w;
     sent := sent w; pending := pending w; procs := procs w |}.

Definition set_tokens_file (x : gmap string value) (w : world) : world :=
  {| config := config w; tempTokens := tempTokens w;
     persistentTokens := persistentTokens w; netif := netif w;
     isStreaming := isStreaming w; config_file := config_file w;
     tokens_file := x; bitrate_file := bitrate_file w;
     pipelines := pipelines w; conns := conns w; clients := clients w;
     sent := sent w; pending := pending w; procs := procs w |}.

Definition set_bitrate_file (x : option (value * value)) (w : world) : world :=
  {| config := config w; tempTokens := tempTokens w;
     persistentTokens := persistentTokens w; netif := netif w;
     isStreaming := isStreaming w; config_file := config_file w;
     tokens_file := tokens_file w; bitrate_file := x;
     pipelines := pipelines w; conns := conns w; clients := clients w;
     sent := sent w; pending := pending w; procs := procs w |}.

Definition set_conns (x : gmap nat conn) (w : world) : world :=
  {| config := config w; tempTokens := tempTokens w;
     persistentTokens := persistentTokens w; netif := netif w;
     isStreaming := isStreaming w; config_file := config_file w;
     tokens_file := tokens_file w; bitrate_file := bitrate_file w;
     pipelines := pipelines w; conns := x; clients := clients w;
     sent := sent w; pending := pending w; procs := procs w |}.

Definition set_clients (x : list nat) (w : world) : world :=
  {| config := config w; tempTokens := tempTokens w;
     persistentTokens := persistentTokens w; netif := netif w;
     isStreaming := isStreaming w; config_file := config_file w;
     tokens_file := tokens_file w; bitrate_file := bitrate_file w;
     pipelines := pipelines w; conns := conns w; clients := x;
     sent := sent w; pending := pending w; procs := procs w |}.

Definition set_sent (x : list (nat * message)) (w : world) : world :=
  {| config := config w; tempTokens := tempTokens w;
     persistentTokens := persistentTokens w; netif := netif w;
     isStreaming := isStreaming w; config_file := config_file w;
     tokens_file := tokens_file w; bitrate_file := bitrate_file w;
     pipelines := pipelines w; conns := conns w; clients := clients w;
     sent := x; pending := pending w; procs := procs w |}.

Definition set_pending (x : list async) (w : world) : world :=
  {| config := config w; tempTokens := tempTokens w;
     persistentTokens := persistentTokens w; netif := netif w;
     isStreaming := isStreaming w; config_file := config_file w;
     tokens_file := tokens_file w; bitrate_file := bitrate_file w;
     pipelines := pipelines w; conns := conns w; clients := clients w;
     sent := sent w; pending := x; procs := procs w |}.

Definition set_procs (x : list proc) (w : world) : world :=
  {| config := config w; tempTokens := tempTokens w;
     persistentTokens := persistentTokens w; netif := netif w;
     isStreaming := isStreaming w; config_file := config_file w;
     tokens_file := tokens_file w; bitrate_file := bitrate_file w;
     pipelines := pipelines w; conns := conns w; clients := clients w;
     sent := sent w; pending := pending w; procs := x |}.

(** [conn.isAuthed], [conn.authToken] for the connection object [c]. *)
Definition conn_of (w : world) (c : nat) : conn := default new_conn (conns w !! c).

(** ** Computations *)

(** A function of the program runs from a world to a returned value and a
    world, or to a thrown exception and the world as the throw left it. *)
Inductive outcome (A : Type) :=
| Ret (a : A) (w : world)
| Throw (w : world).

Arguments Ret {A} a w.
Arguments Throw {A} w.

Definition M (A : Type) : Type := world -> outcome A.

#[global] Instance M_ret : MRet M := fun A a w => Ret a w.

#[global] Instance M_bind : MBind M := fun A B f m w =>
  match m w with
  | Ret a w' => f a w'
  | Throw w' => Throw w'
  end.

#[global] Instance M_fmap : FMap M := fun A B f m w =>
  match m w with
  | Ret a w' => Ret (f a) w'
  | Throw w' => Throw w'
  end.

Definition get {A} (f : world -> A) : M A := fun w => Ret (f w) w.

Definition modify (f : world -> world) : M unit := fun w => Ret tt (f w).

(** [throw new TypeError(...)] *)
Definition throw {A} : M A := fun w => Throw w.

Definition world_of {A} (o : outcome A) : world :=
  match o with
  | Ret _ w => w
  | Throw w => w
  end.

Fixpoint for_each {A} (l : list A) (body : A -> M unit) : M unit :=
  match l with
  | [] => mret tt
  | x :: rest => body x;; for_each rest body
  end.

(** [p || q] *)
Definition or_else (p q : M bool) : M bool :=
  b ← p; if b : bool then mret true else q.

(** [o.k]: a TypeError on [undefined] and [null]. *)
Definition prop (o : value) (k : string) : M value :=
  match o with
  | VUndef | VNull => throw
  | _ => mret (own o k)
  end.

(** ToPrimitive.  An object from [JSON.parse] has no callable property of
    its own: the inherited [valueOf] returns the object, the inherited
    [toString] returns ["[object Object]"], and an own [toString] (not
    callable) leaves no method that returns a primitive. *)
Definition ToPrimitive (v : value) : M prim :=
  match v with
  | VUndef => mret PUndef
  | VNull => mret PNull
  | VBool b => mret (PBool b)
  | VNum n => mret (PNum n)
  | VStr s => mret (PStr s)
  | VObj props => if assoc "toString" props is Some _ then throw else mret (PStr "[object Object]")
  end.

Section Runtime.
Context `{Engine}.

(** ToPropertyKey *)
Definition ToPropertyKey (v : value) : M string :=
  p ← ToPrimitive v;
  mret match p with
       | PUndef => "undefined"
       | PNull => "null"
       | PBool true => "true"
       | PBool false => "false"
       | PNum n => NumberToString n
       | PStr s => s
       end.

(** [a < b] *)
Definition lt (a b : value) : M bool :=
  x ← ToPrimitive a; y ← ToPrimitive b;
  mret (default false (IsLessThan x y)).

(** [a > b] *)
Definition gt (a b : value) : M bool :=
  x ← ToPrimitive a; y ← ToPrimitive b;
  mret (default false (IsLessThan y x)).

(** [a <= b] *)
Definition le (a b : value) : M bool :=
  x ← ToPrimitive a; y ← ToPrimitive b;
  mret match IsLessThan y x with
       | Some false => true
       | _ => false
       end.

(** ** The program *)

Definition saveConfig : M unit :=
  modify (fun w => set_config_file (config w) w).

Definition savePersistentTokens : M unit :=
  modify (fun w => set_tokens_file (persistentTokens w) w).

(** [conn.send(msg)] *)
Definition send (c : nat) (msg : message) : M unit :=
  modify (fun w => set_sent (sent w ++ [(c, msg)]) w).

Definition broadcastMsg (type : string) (d : data) : M unit :=
  let msg := buildMsg type d in
  cs ← get clients;
  for_each cs (fun c =>
    authed ← get (fun w => isAuthed (conn_of w c));
    if authed : bool then send c msg else mret tt).

Definition broadcastMsgExcept (conn : nat) (type : string) (d : data) : M unit :=
  let msg := buildMsg type d in
  cs ← get clients;
  for_each cs (fun c =>
    authed ← get (fun w => isAuthed (conn_of w c));
    if negb (Nat.eqb c conn) && authed then send c msg else mret tt).

(** The pipeline files as [getPipelines] finds them in the pipeline
    directories at the time of the call: identifier to name and path. *)
Definition getPipelines : M (gmap string (string * string)) := get pipelines.

(** [pipelines[id]] is looked up along the prototype chain; what it finds
    on the prototype has no [path]. *)
Definition searchPipelines (id : value) : M value :=
  pipelines ← getPipelines;
  key ← ToPropertyKey id;
  mret match pipelines !! key with
       | Some p => VStr (snd p)
       | None => if inherited key then VUndef else VNull
       end.

Definition getPipelineList : M (gmap string string) :=
  pipelines ← getPipelines;
  mret (fst <$> pipelines).

(** The callback of [updateNetif]: [newints] is what the loop over the
    output of [ifconfig] builds. *)
Definition updateNetif (error : option string) (newints : value) : M unit :=
  match error with
  | Some _ => mret tt
  | None =>
      modify (set_netif newints);;
      n ← get netif; broadcastMsg "netif" (DNetif n)
  end.

(** The callback of [updateStatus]. *)
Definition updateStatus (error : option string) : M unit :=
  let streaming := bool_decide (error = None) in
  cur ← get isStreaming;
  if negb (eqb streaming cur) then
    modify (set_isStreaming streaming);;
    s ← get isStreaming; broadcastMsg "status" (DStatus s)
  else mret tt.

Definition sendError (conn : nat) (msg : text) : M unit :=
  send conn (buildMsg "error" (DError msg)).

Definition startError (conn : nat) (msg : text) : M value :=
  sendError conn msg;;
  send conn (buildMsg "status" (DStatus false));;
  mret (VBool false).

(** [child_process.spawnSync], [child_process.spawn] *)
Definition spawnSync (cmd : string) (args : list string) : M unit :=
  modify (fun w => set_procs (procs w ++ [SpawnSync cmd args]) w).

Definition spawn (cmd : string) (args : list value) : M unit :=
  modify (fun w => set_procs (procs w ++ [Spawn cmd args]) w).

(** [null], or the pair [[min_br, max_br]].  The bitrate file holds the
    two rates. *)
Definition setBitrate (params : value) : M (option (value * value)) :=
  absent ← or_else (nullish <$> prop params "min_br") (nullish <$> prop params "max_br");
  if absent : bool then mret None else
  min ← prop params "min_br";
  bad ← or_else (lt min (num 500)) (gt min (num 12000));
  if bad : bool then mret None else
  max ← prop params "max_br";
  bad ← or_else (lt max (num 500)) (gt max (num 12000));
  if bad : bool then mret None else
  bad ← gt min max;
  if bad : bool then mret None else
  modify (fun w =>
    let c := config w in
    set_config {| password_hash := password_hash c; delay := delay c;
                  pipeline := pipeline c; min_br := min; max_br := max;
                  srt_latency := srt_latency c; srt_streamid := srt_streamid c;
                  srtla_addr := srtla_addr c; srtla_port := srtla_port c |} w);;
  saveConfig;;
  modify (set_bitrate_file (Some (min, max)));;
  spawnSync "killall" ["-HUP"; "belacoder"];;
  mret (Some (min, max)).

(** [dns.lookup(hostname, callback)], [bcrypt.compare(data, hash, callback)]:
    the callback waits until the runtime calls it. *)
Definition defer (a : async) : M unit :=
  modify (fun w => set_pending (pending w ++ [a]) w).

Definition updateConfig (conn : nat) (params : value) (cb : callback) : M value :=
  (* delay *)
  delay ← prop params "delay";
  if nullish delay then startError conn [S "audio delay not specified"] else
  bad ← or_else (lt delay (num (-2000))) (gt delay (num 2000));
  if bad : bool then startError conn [S "invalid delay "; V delay] else
  (* pipeline *)
  id ← prop params "pipeline";
  if nullish id then startError conn [S "pipeline not specified"] else
  pipeline ← searchPipelines id;
  if nullish pipeline then startError conn [S "pipeline not found"] else
  (* bitrate *)
  bitrate ← setBitrate params;
  if bitrate is None then startError conn [S "invalid bitrate range: "] else
  (* srt latency *)
  srt_latency ← prop params "srt_latency";
  if nullish srt_latency then startError conn [S "SRT latency not specified"] else
  bad ← or_else (lt srt_latency (num 100)) (gt srt_latency (num 10000));
  if bad : bool then startError conn [S "invalid SRT latency "; V srt_latency; S " ms"] else
  (* srt streamid *)
  srt_streamid ← prop params "srt_streamid";
  if nullish srt_streamid then startError conn [S "SRT streamid not specified"] else
  (* srtla addr & port *)
  srtla_addr ← prop params "srtla_addr";
  if nullish srtla_addr then startError conn [S "SRTLA address not specified"] else
  srtla_port ← prop params "srtla_port";
  if nullish srtla_port then startError conn [S "SRTLA port not specified"] else
  bad ← or_else (le srtla_port (num 0)) (gt srtla_port (num 65535));
  if bad : bool then startError conn [S "invalid SRTLA port "; V srtla_port] else
  defer (Lookup conn params pipeline cb);;
  mret VUndef.

(** [start]'s closure, the [callback] of [updateConfig]. *)
Definition call (cb : callback) (pipeline : value) : M unit :=
  match cb with
  | SpawnRunner =>
      c ← get config;
      spawn "ruby" [VStr "runner.rb"; pipeline; delay c; srtla_addr c;
                    srtla_port c; srt_latency c; srt_streamid c]
  end.

(** The callback [updateConfig] hands to [dns.lookup]. *)
Definition lookup_done (conn : nat) (params pipeline : value) (cb : callback)
    (err : option string) : M unit :=
  match err with
  | None =>
      delay ← prop params "delay";
      id ← prop params "pipeline";
      min ← prop params "min_br";
      max ← prop params "max_br";
      srt_latency ← prop params "srt_latency";
      srt_streamid ← prop params "srt_streamid";
      srtla_addr ← prop params "srtla_addr";
      srtla_port ← prop params "srtla_port";
      modify (fun w =>
        set_config {| password_hash := password_hash (config w); delay := delay;
                      pipeline := id; min_br := min; max_br := max;
                      srt_latency := srt_latency; srt_streamid := srt_streamid;
                      srtla_addr := srtla_addr; srtla_port := srtla_port |} w);;
      saveConfig;;
      c ← get config;
      broadcastMsgExcept conn "config" (DConfig c);;
      call cb pipeline
  | Some _ =>
      srtla_addr ← prop params "srtla_addr";
      startError conn [S "failed to resolve SRTLA addr "; V srtla_addr];;
      mret tt
  end.

Definition start (conn : nat) (params : value) : M unit :=
  updateConfig conn params SpawnRunner;; mret tt.

Definition stop : M unit :=
  spawnSync "pkill" ["-f"; "runner.rb"];;
  spawnSync "killall" ["srtla_send"];;
  spawnSync "killall" ["srtla_send_upstream"];;
  spawnSync "killall" ["belacoder"].

Definition command (conn : nat) (cmd : value) : M unit :=
  match cmd with
  | VStr s =>
      if String.eqb s "poweroff" then spawnSync "poweroff" []
      else if String.eqb s "reboot" then spawnSync "reboot" []
      else mret tt
  | _ => mret tt
  end.

(** *** Authentication *)

(** [buffer.toString('base64')] *)
Definition alphabet : string :=
  "ABCDEFGHIJKLMNOPQRSTUVWXYZabcdefghijklmnopqrstuvwxyz0123456789+/".

Definition digit64 (n : N) : Ascii.ascii :=
  default "="%char (String.get (N.to_nat n) alphabet).

Fixpoint base64 (buffer : list Byte.byte) : string :=
  match buffer with
  | [] => ""
  | [a] =>
      let n := (Byte.to_N a * 65536)%N in
      String (digit64 (n / 262144)) (String (digit64 (n / 4096 mod 64)) "==")
  | [a; b] =>
      let n := (Byte.to_N a * 65536 + Byte.to_N b * 256)%N in
      String (digit64 (n / 262144)) (String (digit64 (n / 4096 mod 64))
        (String (digit64 (n / 64 mod 64)) "="))
  | a :: b :: c :: rest =>
      let n := (Byte.to_N a * 65536 + Byte.to_N b * 256 + Byte.to_N c)%N in
      String (digit64 (n / 262144)) (String (digit64 (n / 4096 mod 64))
        (String (digit64 (n / 64 mod 64)) (String (digit64 (n mod 64))
          (base64 rest))))
  end.

(** [o[k]] in a condition, for a token store [o]: the property is looked
    up on the object and then along its prototype chain. *)
Definition has (o : gmap string value) (k : string) : bool :=
  match o !! k with
  | Some v => truthy v
  | None => inherited k
  end.

(** [tempTokens[token] || persistentTokens[token]], the test [tryAuth]
    makes of a token. *)
Definition validate (token : string) (w : world) : bool :=
  has (tempTokens w) token || has (persistentTokens w) token.

(** [randomBytes] is what [crypto.randomBytes(32)] returns at this call. *)
Definition genAuthToken (randomBytes : list Byte.byte) (isPersistent : value) : M string :=
  let token := base64 randomBytes in
  (if truthy isPersistent then
     modify (fun w => set_persistentTokens (<[token := VBool true]> (persistentTokens w)) w);;
     savePersistentTokens
   else
     modify (fun w => set_tempTokens (<[token := VBool true]> (tempTokens w)) w));;
  mret token.

Definition sendInitialStatus (conn : nat) : M unit :=
  c ← get config; send conn (buildMsg "config" (DConfig c));;
  l ← getPipelineList; send conn (buildMsg "pipelines" (DPipelines l));;
  s ← get isStreaming; send conn (buildMsg "status" (DStatus s));;
  n ← get netif; send conn (buildMsg "netif" (DNetif n)).

(** [conn.isAuthed = v], [conn.authToken = v]; [None] deletes the property. *)
Definition set_isAuthed (conn : nat) (v : bool) : M unit :=
  modify (fun w =>
    set_conns (<[conn := {| isAuthed := v; authToken := authToken (conn_of w conn) |}]> (conns w)) w).

Definition set_authToken (conn : nat) (v : option string) : M unit :=
  modify (fun w =>
    set_conns (<[conn := {| isAuthed := isAuthed (conn_of w conn); authToken := v |}]> (conns w)) w).

Definition connAuth (conn : nat) (sendToken : option string) : M unit :=
  set_isAuthed conn true;;
  send conn (buildMsg "auth" (DAuth true sendToken));;
  sendInitialStatus conn.

(** The callback [tryAuth] hands to [bcrypt.compare]. *)
Definition compare_done (conn : nat) (msg : value) (err : option string) (same : bool)
    (randomBytes : list Byte.byte) : M unit :=
  if same && bool_decide (err = None) then
    persistent_token ← prop msg "persistent_token";
    token ← genAuthToken randomBytes persistent_token;
    set_authToken conn (Some token);;
    connAuth conn (Some token)
  else
    sendError conn [S "Invalid password"].

Definition tryAuth (conn : nat) (msg : value) : M unit :=
  password ← prop msg "password";
  if is_string password then
    defer (Compare conn msg)
  else
    token ← prop msg "token";
    match token with
    | VStr t =>
        known ← get (validate t);
        if known : bool then
          connAuth conn None;;
          set_authToken conn (Some t)
        else
          send conn (buildMsg "auth" (DAuth false None))
    | _ => mret tt
    end.

(** *** Frames *)

Definition logout (conn : nat) : M unit :=
  token ← get (fun w => authToken (conn_of w conn));
  match token with
  | Some t =>
      if negb (String.eqb t "") then
        modify (fun w => set_tempTokens (delete t (tempTokens w)) w);;
        known ← get (fun w => has (persistentTokens w) t);
        if known : bool then
          modify (fun w => set_persistentTokens (delete t (persistentTokens w)) w);;
          savePersistentTokens
        else mret tt
      else mret tt
  | None => mret tt
  end;;
  modify (fun w => set_conns (<[conn := new_conn]> (conns w)) w).

(** The body of the second loop of [handleMessage], for one key. *)
Definition dispatch (conn : nat) (msg : value) (type : string) : M unit :=
  if String.eqb type "start" then start conn (own msg type)
  else if String.eqb type "stop" then stop
  else if String.eqb type "bitrate" then
    streaming ← get isStreaming;
    if streaming : bool then
      br ← setBitrate (own msg type);
      match br with
      | Some (min, max) => broadcastMsgExcept conn "bitrate" (DBitrate min max)
      | None => mret tt
      end
    else mret tt
  else if String.eqb type "command" then command conn (own msg type)
  else if String.eqb type "logout" then logout conn
  else mret tt.

Definition handleMessage (conn : nat) (msg : value) : M unit :=
  for_each (keys msg) (fun type =>
    if String.eqb type "auth" then tryAuth conn (own msg type) else mret tt);;
  authed ← get (fun w => isAuthed (conn_of w conn));
  if negb authed then mret tt else
  for_each (keys msg) (dispatch conn msg).

(** *** The event loop *)

(** The text of an inbound frame, as [JSON.parse] reads it. *)
Inductive frame :=
| SyntaxError
| Json (v : value).

Definition JSON_parse (f : frame) : M value :=
  match f with
  | SyntaxError => throw
  | Json v => mret v
  end.

(** [try { ... } catch (err) { }] *)
Definition try_catch (body : M unit) : M unit := fun w =>
  match body w with
  | Ret _ w' => Ret tt w'
  | Throw w' => Ret tt w'
  end.

(** The handler of ['message'] on a connection. *)
Definition incoming (conn : nat) (msg : frame) : M unit :=
  try_catch (msg ← JSON_parse msg; handleMessage conn msg).

(** The handler of ['connection']: a new connection object joins
    [wss.clients]. *)
Definition connection : M unit :=
  modify (fun w =>
    let c := fresh (dom (conns w)) in
    set_clients (clients w ++ [c]) (set_conns (<[c := new_conn]> (conns w)) w)).

(** What the runtime delivers to the program: a connection, a frame on a
    connection, the completion of a pending [bcrypt.compare] or
    [dns.lookup], and the completions of the two polls that the timers
    start. *)
Inductive event :=
| Connection
| Incoming (c : nat) (msg : frame)
| CompareDone (i : nat) (err : option string) (same : bool) (randomBytes : list Byte.byte)
| LookupDone (i : nat) (err : option string)
| StatusDone (error : option string)
| NetifDone (error : option string) (newints : value).

Definition handler (e : event) : M unit :=
  match e with
  | Connection => connection
  | Incoming c msg => incoming c msg
  | CompareDone i err same randomBytes =>
      a ← get (fun w => pending w !! i);
      match a with
      | Some (Compare c msg) =>
          modify (fun w => set_pending (delete i (pending w)) w);;
          compare_done c msg err same randomBytes
      | _ => mret tt
      end
  | LookupDone i err =>
      a ← get (fun w => pending w !! i);
      match a with
      | Some (Lookup c params pipeline cb) =>
          modify (fun w => set_pending (delete i (pending w)) w);;
          lookup_done c params pipeline cb err
      | _ => mret tt
      end
  | StatusDone error => updateStatus error
  | NetifDone error newints => updateNetif error newints
  end.

(** One turn of the event loop.  An exception that leaves a handler
    uncaught ends the process: [None]. *)
Definition step (e : event) (w : world) : option world :=
  match handler e w with
  | Ret _ w' => Some w'
  | Throw _ => None
  end.

End Runtime.

(** ** Vocabulary of the statements *)

(** [setBitrate] accepted the pair: it returned the pair, not [null]. *)
Definition accepted {A} (o : outcome (option A)) : Prop :=
  match o with
  | Ret (Some _) _ => True
  | _ => False
  end.

(** A field of a frame that is a number or left out. *)
Definition number_or_absent (v : value) : bool :=
  match v with
  | VUndef | VNull | VNum _ => true
  | _ => false
  end.

Definition is_status_poll (e : event) : bool :=
  match e with
  | StatusDone _ => true
  | _ => false
  end.

(** [keeps f m]: however [m] ends, it leaves the part [f] of the world as
    it found it. *)
Definition keeps {A B} (f : world -> A) (m : M B) : Prop :=
  forall w, f (world_of (m w)) = f w.

(** The frames of the initial sync, as [sendInitialStatus] sends them. *)
Definition initial_sync (c : nat) (w : world) : list (nat * message) :=
  [ (c, buildMsg "config" (DConfig (config w)));
    (c, buildMsg "pipelines" (DPipelines (fst <$> pipelines w)));
    (c, buildMsg "status" (DStatus (isStreaming w)));
    (c, buildMsg "netif" (DNetif (netif w))) ].

(** The fields of the stored config other than the two bitrates. *)
Definition other_fields (w : world) : list value :=
  let c := config w in
  [ password_hash c; delay c; pipeline c; srt_latency c; srt_streamid c;
    srtla_addr c; srtla_port c ].

(** ** A device for the examples *)

(** No example below converts a string to a number or a number to a
    property key, so each of them runs the same under any engine; this one
    is there to run them. *)
Definition example_engine : Engine :=
  {| StringToNumber := fun _ => None; NumberToString := fun _ => "" |}.

Definition h264 : string := "5f2a1c0e9b7d4a3386c1f0d2e4b6a8c0d1e3f5a7".

Definition config0 : Config :=
  {| password_hash := VStr "$2b$10$N9qo8uLOickgx2ZMRZoMyeIjZAgcfl7p92ldGxad68LJZdL17lhWy";
     delay := num 0; pipeline := VStr h264;
     min_br := num 500; max_br := num 6000;
     srt_latency := num 2000; srt_streamid := VStr "";
     srtla_addr := VStr "relay.example.org"; srtla_port := num 5000 |}.

(** The service after start-up, one client connected, not streaming. *)
Definition world0 : world :=
  {| config := config0; tempTokens := ∅; persistentTokens := ∅;
     netif := VObj []; isStreaming := false;
     config_file := config0; tokens_file := ∅; bitrate_file := None;
     pipelines := {[ h264 := ("generic/h264_camlink_1080p", "/opt/belacoder/pipeline/generic/h264_camlink_1080p") ]};
     conns := {[ 0 := new_conn ]}; clients := [0]; sent := [];
     pending := []; procs := [] |}.

(** Thirty-two bytes for [crypto.randomBytes(32)]. *)
Definition bytes0 : list Byte.byte :=
  [ Byte.x3a; Byte.x91; Byte.x0c; Byte.xe4; Byte.x57; Byte.xb2; Byte.x6d; Byte.x18;
    Byte.xf0; Byte.x23; Byte.x8e; Byte.x45; Byte.xc9; Byte.x7a; Byte.x01; Byte.xdd;
    Byte.x64; Byte.xaf; Byte.x32; Byte.x9b; Byte.x5c; Byte.xe7; Byte.x10; Byte.x86;
    Byte.x4f; Byte.xd3; Byte.x28; Byte.xba; Byte.x75; Byte.x0e; Byte.xc1; Byte.x99 ].

Definition token0 : string := Eval vm_compute in base64 bytes0.

(** The same service once the client has logged in with its password and
    holds the temporary token [token0]. *)
Definition world1 : world :=
  set_conns {[ 0 := {| isAuthed := true; authToken := Some token0 |} ]}
    (set_tempTokens {[ token0 := VBool true ]} world0).

(** ** Vocabulary of the broadcasts, the checks and the event loop *)

(** The frames a broadcast of [msg] adds: one for each client that
    [keep] lets through and that is authenticated, in the order of
    [wss.clients]. *)
Definition recipients (keep : nat -> bool) (msg : message) (w : world) : list (nat * message) :=
  map (fun c => (c, msg))
      (List.filter (fun c => keep c && isAuthed (conn_of w c)) (clients w)).

(** The world once [setBitrate] has stored the pair: the config in
    memory and on disk, the bitrate file, and the signal to belacoder. *)
Definition commit_bitrate (min max : value) (w : world) : world :=
  let c := config w in
  let c' := {| password_hash := password_hash c; delay := delay c;
               pipeline := pipeline c; min_br := min; max_br := max;
               srt_latency := srt_latency c; srt_streamid := srt_streamid c;
               srtla_addr := srtla_addr c; srtla_port := srtla_port c |} in
  set_procs (procs w ++ [SpawnSync "killall" ["-HUP"; "belacoder"]])
    (set_bitrate_file (Some (min, max)) (set_config_file c' (set_config c' w))).

(** A pair of bitrates that passes the checks of [setBitrate]. *)
Definition valid_bitrate (params : value) (a b : Q) : Prop :=
  own params "min_br" = VNum (Fin a) /\ own params "max_br" = VNum (Fin b) /\
  (500 <= a)%Q /\ (a <= 12000)%Q /\ (500 <= b)%Q /\ (b <= 12000)%Q /\ (a <= b)%Q.





(** The stored config once the eight fields of [params] are assigned. *)
Definition applied_config (params : value) (w : world) : Config :=
  {| password_hash := password_hash (config w);
     delay := own params "delay"; pipeline := own params "pipeline";
     min_br := own params "min_br"; max_br := own params "max_br";
     srt_latency := own params "srt_latency";
     srt_streamid := own params "srt_streamid";
     srtla_addr := own params "srtla_addr";
     srtla_port := own params "srtla_port" |}.

(** Every client but [conn]. *)
Definition others (conn : nat) (c : nat) : bool := negb (Nat.eqb c conn).

(** [within R m]: however [m] ends, the world it leaves is related by
    [R] to the world it found. *)
Definition within (R : relation world) {A} (m : M A) : Prop :=
  forall w, R w (world_of (m w)).

(** The relation of a world where [I] holds to a world where it still
    does. *)
Definition invariant (I : world -> Prop) : relation world :=
  fun w w' => I w -> I w'.


(** The event is a password comparison that completed with a match. *)
Definition issues_token (e : event) : bool :=
  match e with
  | CompareDone _ err same _ => same && bool_decide (err = None)
  | _ => false
  end.

(** No token has been added to either store. *)
Definition no_new_token : relation world :=
  fun w w' => tempTokens w' ⊆ tempTokens w /\ persistentTokens w' ⊆ persistentTokens w.

(** The part [f] of the world is as it was. *)
Definition unchanged {A} (f : world -> A) : relation world :=
  fun w w' => f w' = f w.

(** The connection on whose behalf an event runs: the one the frame came
    in on, or the one that left the callback pending. *)
Definition originator (e : event) (w : world) : option nat :=
  match e with
  | Incoming c _ => Some c
  | CompareDone i _ _ _ =>
      match pending w !! i with
      | Some (Compare c _) => Some c
      | _ => None
      end
  | LookupDone i _ =>
      match pending w !! i with
      | Some (Lookup c _ _ _) => Some c
      | _ => None
      end
  | _ => None
  end.

(** The frames sent to the connection [c] so far. *)
Definition inbox (c : nat) (w : world) : list message :=
  map snd (List.filter (fun m => Nat.eqb (fst m) c) (sent w)).

(** A connection that is not authenticated stays so and is sent nothing. *)
Definition quiet (c : nat) : relation world :=
  fun w w' =>
    isAuthed (conn_of w c) = false ->
    isAuthed (conn_of w' c) = false /\ inbox c w' = inbox c w.



(** The event loop over a sequence of events; [None] once a turn has
    ended the process. *)
Fixpoint run `{Engine} (events : list event) (w : world) : option world :=
  match events with
  | [] => Some w
  | e :: rest =>
      match step e w with
      | Some w' => run rest w'
      | None => None
      end
  end.

(** [read_dir_abs_path(dir)], where [files] is what [fs.readdirSync(dir)]
    returns, [basename] is [path.basename(dir)] and [sha1] is the
    hexadecimal SHA-1 digest: identifier to name and path. *)
Definition read_dir_abs_path (sha1 : string -> string) (files : list string)
    (basename dir : string) : gmap string (string * string) :=
  foldl (fun pipelines f =>
           let name := basename ++ "/" ++ f in
           let id := sha1 name in
           let path := dir ++ f in
           <[id := (name, path)]> pipelines)
        ∅ files.

(** What [getPipelines] builds from the two pipeline directories, [hw]
    and [belacoder_path] being the two fields of [setup] it reads and
    [readdir] the directories as they are on disk: the generic pipelines
    are assigned over the jetson ones. *)
Definition scan_pipelines (sha1 : string -> string) (hw belacoder_path : string)
    (readdir : string -> list string) : gmap string (string * string) :=
  let jetson := belacoder_path ++ "/pipeline/jetson/" in
  let generic := belacoder_path ++ "/pipeline/generic/" in
  let ps := if String.eqb hw "jetson"
            then read_dir_abs_path sha1 (readdir jetson) "jetson" jetson
            else ∅ in
  read_dir_abs_path sha1 (readdir generic) "generic" generic ∪ ps.

(** ** More of the device for the examples *)

(** The service while it streams, with three clients: two tabs of a
    browser logged in with the token [token0], and a client that has not
    logged in. *)
Definition world2 : world :=
  set_isStreaming true
    (set_clients [0; 1; 2]
       (set_conns {[ 0 := {| isAuthed := true; authToken := Some token0 |};
                     1 := {| isAuthed := true; authToken := Some token0 |};
                     2 := new_conn ]}
          world1)).

(** The parameters of a [start] frame that passes every check. *)
Definition start0 : value :=
  VObj [ ("delay", num 0); ("pipeline", VStr h264);
         ("min_br", num 1000); ("max_br", num 4000);
         ("srt_latency", num 2000); ("srt_streamid", VStr "live");
         ("srtla_addr", VStr "relay.example.org"); ("srtla_port", num 5000) ].

(** * Properties *)

(** ** Running computations *)

Arguments conn_of : simpl never.
Arguments own : simpl nomatch.
Arguments handleMessage : simpl never.
Arguments tryAuth : simpl never.
Arguments compare_done : simpl never.
Arguments lookup_done : simpl never.
Arguments logout : simpl never.
Arguments inherited : simpl never.

Ltac monad :=
  repeat progress
    (unfold mbind, mret, fmap, M_bind, M_ret, M_fmap, get, modify, throw in *;
     cbn in *).

(** The same, in the goal only. *)
Ltac run :=
  repeat progress
    (unfold mbind, mret, fmap, M_bind, M_ret, M_fmap, get, modify, throw; cbn).

Lemma prop_own o k : nullish o = false -> prop o k = mret (own o k).
Proof. by destruct o. Qed.

Lemma for_each_skip {A} (l : list A) (body : A -> M unit) w :
  (forall x, x ∈ l -> body x = mret tt) -> for_each l body w = Ret tt w.
Proof.
  induction l as [|x l IH]; intros Hbody; [done|].
  cbn. rewrite (Hbody x) by left. monad.
  apply IH. intros y Hy. apply Hbody. by right.
Qed.

(** A loop whose body does something at one key only, met once, is that
    one run of the body. *)
Lemma for_each_once (l : list string) (body : string -> M unit) k w :
  NoDup l -> k ∈ l -> (forall x, x ≠ k -> body x = mret tt) ->
  for_each l body w = body k w.
Proof.
  induction l as [|x l IH]; intros Hnd Hin Hbody.
  - by apply elem_of_nil in Hin.
  - apply NoDup_cons in Hnd as [Hx Hnd]. cbn.
    destruct (decide (x = k)) as [->|Hne].
    + monad. destruct (body k w) as [[] w'|w']; [|done].
      apply for_each_skip. intros y Hy. apply Hbody. intros ->. contradiction.
    + rewrite (Hbody x Hne). monad. apply IH; [done| |done].
      apply elem_of_cons in Hin as [->|Hin]; [contradiction|done].
Qed.

(** A loop returns when each turn of its body does. *)
Lemma for_each_returns {A} (l : list A) (body : A -> M unit) :
  (forall x w, exists w', body x w = Ret tt w') ->
  forall w, exists w', for_each l body w = Ret tt w'.
Proof.
  intros Hbody. induction l as [|x l IH]; intros w; [by eexists|].
  cbn. monad. destruct (Hbody x w) as [w1 ->]. apply IH.
Qed.

Lemma broadcastMsg_returns type d w : exists w', broadcastMsg type d w = Ret tt w'.
Proof.
  unfold broadcastMsg. monad. apply for_each_returns. clear w.
  intros c w. monad. destruct (isAuthed (conn_of w c)); by eexists.
Qed.

Lemma broadcastMsgExcept_returns conn type d w :
  exists w', broadcastMsgExcept conn type d w = Ret tt w'.
Proof.
  unfold broadcastMsgExcept. monad. apply for_each_returns. clear w.
  intros c w. monad. destruct (_ && _); by eexists.
Qed.

(** ** Frame conditions *)

Section Keeps.
Context {A : Type} (f : world -> A).

Lemma keeps_ret {B} (b : B) : keeps f (mret b).
Proof. done. Qed.

Lemma keeps_throw {B} : keeps f (@throw B).
Proof. done. Qed.

Lemma keeps_get {B} (g : world -> B) : keeps f (get g).
Proof. done. Qed.

Lemma keeps_modify (g : world -> world) :
  (forall w, f (g w) = f w) -> keeps f (modify g).
Proof. intros Hg w. apply Hg. Qed.

Lemma keeps_bind {B C} (m : M B) (k : B -> M C) :
  keeps f m -> (forall b, keeps f (k b)) -> keeps f (m ≫= k).
Proof.
  intros Hm Hk w. specialize (Hm w). monad.
  destruct (m w) as [b w'|w']; [|done].
  cbn in Hm. by rewrite Hk.
Qed.

Lemma keeps_fmap {B C} (g : B -> C) (m : M B) : keeps f m -> keeps f (g <$> m).
Proof. intros Hm w. specialize (Hm w). monad. by destruct (m w). Qed.

Lemma keeps_or_else (p q : M bool) : keeps f p -> keeps f q -> keeps f (or_else p q).
Proof. intros Hp Hq. apply keeps_bind; [done|]. intros []; [apply keeps_ret|done]. Qed.

Lemma keeps_for_each {B} (l : list B) (body : B -> M unit) :
  (forall x, keeps f (body x)) -> keeps f (for_each l body).
Proof.
  intros Hbody. induction l as [|x l IH]; [done|].
  cbn. apply keeps_bind; [apply Hbody | by intros _].
Qed.

Lemma keeps_try_catch (body : M unit) : keeps f body -> keeps f (try_catch body).
Proof. intros Hb w. specialize (Hb w). unfold try_catch. by destruct (body w). Qed.

Lemma keeps_prop o k : keeps f (prop o k).
Proof. by destruct o. Qed.

Lemma keeps_ToPrimitive v : keeps f (ToPrimitive v).
Proof. destruct v; try done. cbn. by destruct (assoc _ _). Qed.

End Keeps.

(** Splits a computation along its binds, loops and branches, leaving the
    assignments. *)
Ltac frame_step :=
  first
    [ apply keeps_ret | apply keeps_throw | apply keeps_get | apply keeps_prop
    | apply keeps_ToPrimitive
    | apply keeps_fmap
    | apply keeps_or_else
    | apply keeps_try_catch
    | apply keeps_for_each; intros ?
    | apply keeps_bind; [|intros ?]
    | apply keeps_modify; intros ?; reflexivity
    | match goal with
      | |- keeps _ (if ?b then _ else _) => destruct b
      | |- keeps _ (match ?x with _ => _ end) => destruct x
      end ].

Ltac frame := repeat frame_step.

(** ** Comparison of rationals *)

Lemma Qle_bool_false a b : Qle_bool a b = false <-> (b < a)%Q.
Proof.
  split.
  - intros Hf. apply Qnot_le_lt. intros Hab. apply Qle_bool_iff in Hab. congruence.
  - intros Hlt. destruct (Qle_bool a b) eqn:Hb; [|done].
    apply Qle_bool_iff in Hb. lra.
Qed.

Ltac Qbool :=
  repeat match goal with
  | H : Qle_bool _ _ = true |- _ => apply Qle_bool_iff in H
  | H : Qle_bool _ _ = false |- _ => apply Qle_bool_false in H
  end;
  unfold inject_Z in *.

(** ** Bitrate validation *)

Section Bitrate.
Context `{Engine}.

(** What [setBitrate] returns for a pair of numbers, each of which may be
    left out. *)
Lemma setBitrate_numbers params w :
  nullish params = false ->
  number_or_absent (own params "min_br") = true ->
  number_or_absent (own params "max_br") = true ->
  (exists a b,
     own params "min_br" = VNum (Fin a) /\ own params "max_br" = VNum (Fin b) /\
     (500 <= a)%Q /\ (a <= 12000)%Q /\ (500 <= b)%Q /\ (b <= 12000)%Q /\ (a <= b)%Q /\
     accepted (setBitrate params w)) \/
  (~ (exists a b,
        own params "min_br" = VNum (Fin a) /\ own params "max_br" = VNum (Fin b) /\
        (500 <= a)%Q /\ (a <= 12000)%Q /\ (500 <= b)%Q /\ (b <= 12000)%Q /\ (a <= b)%Q) /\
   setBitrate params w = Ret None w).
Proof.
  intros Hp Hmin Hmax.
  unfold setBitrate, or_else, lt, gt. rewrite !prop_own by done.
  destruct (own params "min_br") as [| | |[a| |]| |]; try discriminate Hmin;
  destruct (own params "max_br") as [| | |[b| |]| |]; try discriminate Hmax;
  monad;
  repeat (match goal with
          | |- context [Qle_bool ?x ?y] => destruct (Qle_bool x y) eqn:?
          end; monad);
  Qbool;
  first
    [ left; eexists _, _; repeat split; (reflexivity || lra)
    | right; split; [intros (a' & b' & ? & ? & ?); simplify_eq; lra | reflexivity] ].
Qed.


(** The boundary cases. *)
Example setBitrate_500_12000 w :
  accepted (setBitrate (VObj [("min_br", num 500); ("max_br", num 12000)]) w).
Proof. by monad. Qed.

Example setBitrate_min_499 max w :
  number_or_absent max = true ->
  setBitrate (VObj [("min_br", num 499); ("max_br", max)]) w = Ret None w.
Proof.
  intros Hmax.
  destruct (setBitrate_numbers (VObj [("min_br", num 499); ("max_br", max)]) w)
    as [(a & b & Ha & _ & ? & _) | [_ Hret]]; try done.
  cbn in Ha. unfold num in Ha. simplify_eq. unfold inject_Z in *. exfalso. lra.
Qed.

Example setBitrate_min_12001 max w :
  number_or_absent max = true ->
  setBitrate (VObj [("min_br", num 12001); ("max_br", max)]) w = Ret None w.
Proof.
  intros Hmax.
  destruct (setBitrate_numbers (VObj [("min_br", num 12001); ("max_br", max)]) w)
    as [(a & b & Ha & _ & _ & ? & _) | [_ Hret]]; try done.
  cbn in Ha. unfold num in Ha. simplify_eq. unfold inject_Z in *. exfalso. lra.
Qed.

Example setBitrate_600_500 w :
  setBitrate (VObj [("min_br", num 600); ("max_br", num 500)]) w = Ret None w.
Proof. by monad. Qed.

(** Fields that are not numbers are compared after conversion, and a
    comparison with [NaN] is false either way: a pair of objects passes
    every check. *)
Lemma setBitrate_objects w :
  StringToNumber "[object Object]" = None ->
  accepted (setBitrate (VObj [("min_br", VObj []); ("max_br", VObj [])]) w).
Proof. intros Hnan. unfold setBitrate, or_else, lt, gt. monad. by rewrite Hnan. Qed.

End Bitrate.


(** ** The streaming flag *)

(** Unfolds the functions of the program down to reads, assignments and
    the control flow between them. *)
Ltac program :=
  unfold handler, incoming, JSON_parse, connection, handleMessage, dispatch,
    logout, tryAuth, compare_done, connAuth, set_authToken, set_isAuthed,
    sendInitialStatus, genAuthToken, command, stop, start, lookup_done, call,
    updateConfig, defer, setBitrate, spawn, spawnSync, startError, sendError,
    updateNetif, getPipelineList, searchPipelines, getPipelines,
    broadcastMsgExcept, broadcastMsg, send, savePersistentTokens, saveConfig,
    le, gt, lt, ToPropertyKey.

Section Streaming.
Context `{Engine}.

Lemma start_keeps_isStreaming c params : keeps isStreaming (start c params).
Proof. program. frame. Qed.

Lemma lookup_done_keeps_isStreaming c params pipeline cb err :
  keeps isStreaming (lookup_done c params pipeline cb err).
Proof. program. frame. Qed.

Lemma handler_keeps_isStreaming e :
  is_status_poll e = false -> keeps isStreaming (handler e).
Proof. intros He. destruct e; try discriminate; program; frame. Qed.

Lemma broadcastMsg_keeps_isStreaming type d : keeps isStreaming (broadcastMsg type d).
Proof. program. frame. Qed.

Lemma updateStatus_sets_isStreaming error w :
  exists w', updateStatus error w = Ret tt w' /\
             isStreaming w' = bool_decide (error = None).
Proof.
  unfold updateStatus. monad.
  destruct (eqb (bool_decide (error = None)) (isStreaming w)) eqn:Heq; cbn.
  - apply eqb_prop in Heq. by eexists.
  - set (w1 := set_isStreaming _ w).
    destruct (broadcastMsg_returns "status" (DStatus (isStreaming w1)) w1) as [w' Hrun].
    pose proof (broadcastMsg_keeps_isStreaming "status" (DStatus (isStreaming w1)) w1) as Hk.
    rewrite Hrun in *. by exists w'.
Qed.

(** C4.  [start] never writes the streaming flag, neither when it is
    called nor when its name lookup completes and the runner is spawned;
    an event that changes the flag is a completion of the liveness poll
    ([updateStatus]), and each such completion sets the flag to what the
    poll found. *)
Theorem streaming_flag_authority :
  (forall c params, keeps isStreaming (start c params)) /\
  (forall c params pipeline err,
     keeps isStreaming (lookup_done c params pipeline SpawnRunner err)) /\
  (forall e w w',
     step e w = Some w' -> isStreaming w' <> isStreaming w ->
     is_status_poll e = true) /\
  (forall error w,
     exists w', step (StatusDone error) w = Some w' /\
                isStreaming w' = bool_decide (error = None)).
Proof.
  split; [apply start_keeps_isStreaming|].
  split; [intros; apply lookup_done_keeps_isStreaming|].
  split.
  - intros e w w' Hstep Hne.
    destruct (is_status_poll e) eqn:He; [done|]. exfalso. apply Hne.
    pose proof (handler_keeps_isStreaming e He w) as Hk.
    unfold step in Hstep. destruct (handler e w); [|done].
    by simplify_eq.
  - intros error w.
    destruct (updateStatus_sets_isStreaming error w) as (w' & Hrun & Hflag).
    exists w'. unfold step. cbn. by rewrite Hrun.
Qed.

End Streaming.

(** ** Frames on a session *)

Section Sessions.
Context `{Engine}.

Lemma first_loop_skip c msg w :
  "auth" ∉ keys msg ->
  for_each (keys msg) (fun type =>
    if String.eqb type "auth" then tryAuth c (own msg type) else mret tt) w = Ret tt w.
Proof.
  intros Hno. apply for_each_skip. intros x Hx.
  destruct (String.eqb_spec x "auth") as [->|_]; [contradiction|done].
Qed.

(** C5.  On a connection that is not authenticated, a frame without an
    [auth] key has no effect at all: the world after handling it is the
    world before, so that no reply went out on any connection, and the
    stored config, both token stores, the streaming flag and every session
    are as they were. *)
Theorem unauthenticated_frame_ignored c msg w :
  isAuthed (conn_of w c) = false ->
  "auth" ∉ keys msg ->
  handleMessage c msg w = Ret tt w /\
  step (Incoming c (Json msg)) w = Some w.
Proof.
  intros Hc Hno.
  assert (handleMessage c msg w = Ret tt w) as Hrun.
  { unfold handleMessage. monad. rewrite first_loop_skip by done. by rewrite Hc. }
  split; [done|].
  unfold step, handler, incoming, try_catch. monad. by rewrite Hrun.
Qed.

(** C7.  While the streaming flag is false the [bitrate] command does
    nothing: the world after it is the world before, so that no [bitrate]
    frame is sent to any session and the stored [min_br] and [max_br] are
    untouched.  That holds of the command inside any frame and of the
    frame that carries only it, sent by an authenticated session. *)
Theorem bitrate_ignored_when_idle c msg v w :
  isStreaming w = false ->
  dispatch c msg "bitrate" w = Ret tt w /\
  (isAuthed (conn_of w c) = true ->
   handleMessage c (VObj [("bitrate", v)]) w = Ret tt w).
Proof.
  intros Hidle.
  assert (forall m, dispatch c m "bitrate" w = Ret tt w) as Hcmd.
  { intros m. unfold dispatch. monad. by rewrite Hidle. }
  split; [done|]. intros Hc.
  unfold handleMessage. monad. rewrite Hc. cbn. by rewrite Hidle.
Qed.

End Sessions.

Lemma unauthenticated_frame_ignored_witness :
  let msg := VObj [("start", VObj [("delay", num 0)]); ("stop", VBool true)] in
  isAuthed (conn_of world0 0) = false /\
  ("auth" ∉ keys msg) /\
  @handleMessage example_engine 0 msg world0 = Ret tt world0 /\
  @step example_engine (Incoming 0 (Json msg)) world0 = Some world0.
Proof.
  intros msg.
  assert ("auth" ∉ keys msg) as Hno.
  { intros Hin. cbn in Hin.
    repeat (apply elem_of_cons in Hin as [Hin|Hin]; [discriminate|]).
    by apply elem_of_nil in Hin. }
  split; [reflexivity|]. split; [done|].
  by apply (@unauthenticated_frame_ignored example_engine 0 msg world0).
Defined.

Lemma bitrate_ignored_when_idle_witness :
  let v := VObj [("min_br", num 1000); ("max_br", num 2000)] in
  isStreaming world1 = false /\
  @dispatch example_engine 0 (VObj [("bitrate", v)]) "bitrate" world1 = Ret tt world1 /\
  (isAuthed (conn_of world1 0) = true ->
   @handleMessage example_engine 0 (VObj [("bitrate", v)]) world1 = Ret tt world1).
Proof.
  intros v. split; [reflexivity|].
  by apply (@bitrate_ignored_when_idle example_engine 0 (VObj [("bitrate", v)]) v world1).
Defined.

(** ** Tokens *)

Lemma base64_length buffer :
  String.length (base64 buffer) = 4 * ((length buffer + 2) / 3).
Proof.
  remember (length buffer) as n eqn:Hn. revert buffer Hn.
  induction (lt_wf n) as [n _ IH].
  intros [|a [|b [|c rest]]] ->; try reflexivity.
  cbn [base64 String.length length].
  rewrite (IH (length rest)) by (cbn; lia || reflexivity).
  replace (Datatypes.S (Datatypes.S (Datatypes.S (length rest))) + 2)
    with (length rest + 2 + 1 * 3) by lia.
  rewrite Nat.div_add by done. lia.
Qed.

(** A name on [Object.prototype] is at most twenty characters long. *)
Lemma inherited_length k : inherited k = true -> String.length k <= 20.
Proof.
  unfold inherited, Object_prototype. cbn [existsb].
  repeat match goal with
         | |- context [String.eqb k ?n] =>
             destruct (String.eqb_spec k n) as [->|_]; [intros _; cbn; lia|]
         end.
  done.
Qed.

(** A token is forty-four characters of base64: it is not the empty
    string, and no object inherits a property of that name. *)
Lemma token_fresh_name randomBytes :
  length randomBytes = 32 ->
  String.eqb (base64 randomBytes) "" = false /\ inherited (base64 randomBytes) = false.
Proof.
  intros Hlen.
  pose proof (base64_length randomBytes) as Hsize. rewrite Hlen in Hsize.
  change (4 * ((32 + 2) / 3)) with 44 in Hsize. split.
  - destruct (String.eqb_spec (base64 randomBytes) "") as [Heq|]; [|done].
    rewrite Heq in Hsize. discriminate.
  - destruct (inherited (base64 randomBytes)) eqn:Hin; [|done].
    apply inherited_length in Hin. lia.
Qed.

Lemma genAuthToken_valid randomBytes isPersistent w :
  exists w1,
    genAuthToken randomBytes isPersistent w = Ret (base64 randomBytes) w1 /\
    validate (base64 randomBytes) w1 = true /\
    sent w1 = sent w /\ conns w1 = conns w /\ config w1 = config w /\
    pipelines w1 = pipelines w /\ isStreaming w1 = isStreaming w /\
    netif w1 = netif w.
Proof.
  unfold genAuthToken, savePersistentTokens, validate, has. monad.
  destruct (truthy isPersistent); monad; eexists; (split; [reflexivity|]);
    cbn; rewrite lookup_insert_eq; cbn; by rewrite ?orb_true_r.
Qed.

Lemma logout_revokes c token w :
  authToken (conn_of w c) = Some token ->
  String.eqb token "" = false -> inherited token = false ->
  exists w', logout c w = Ret tt w' /\ validate token w' = false.
Proof.
  intros Htok Hne Hin. unfold logout, savePersistentTokens, validate. monad.
  rewrite Htok, Hne. monad.
  destruct (has (persistentTokens w) token) eqn:Hp; monad;
    eexists; (split; [reflexivity|]); cbn; unfold has in *;
    rewrite ?lookup_delete_eq, ?Hin; [done|].
  rewrite Hin in Hp. by rewrite Hp.
Qed.

Section Tokens.
Context `{Engine}.

Lemma logout_frame c v w :
  isAuthed (conn_of w c) = true ->
  handleMessage c (VObj [("logout", v)]) w = logout c w.
Proof.
  intros Hc. unfold handleMessage, dispatch. monad. rewrite Hc. cbn.
  by destruct (logout c w) as [[] ?|?].
Qed.

(** C2.  A token returned by [genAuthToken], of either persistence
    class, passes the test that [tryAuth] makes of a token as soon as it
    is issued; and once the session that holds it has logged out, in
    whatever later world, it fails that test. *)
Theorem token_valid_until_revoked randomBytes isPersistent w :
  length randomBytes = 32 ->
  let token := base64 randomBytes in
  exists w1,
    genAuthToken randomBytes isPersistent w = Ret token w1 /\
    validate token w1 = true /\
    forall c w2,
      authToken (conn_of w2 c) = Some token ->
      exists w3,
        logout c w2 = Ret tt w3 /\
        validate token w3 = false /\
        forall v, isAuthed (conn_of w2 c) = true ->
                  handleMessage c (VObj [("logout", v)]) w2 = Ret tt w3.
Proof.
  intros Hlen token.
  destruct (genAuthToken_valid randomBytes isPersistent w) as (w1 & Hgen & Hvalid & _).
  exists w1. split; [done|]. split; [done|].
  intros c w2 Htok.
  destruct (token_fresh_name randomBytes Hlen) as [Hne Hin].
  destruct (logout_revokes c token w2 Htok Hne Hin) as (w3 & Hout & Hrev).
  exists w3. split; [done|]. split; [done|].
  intros v Hc. by rewrite logout_frame.
Qed.

End Tokens.

Lemma token_valid_until_revoked_witness :
  length bytes0 = 32 /\
  exists w1,
    genAuthToken bytes0 (VBool false) world0 = Ret (base64 bytes0) w1 /\
    validate (base64 bytes0) w1 = true /\
    forall c w2,
      authToken (conn_of w2 c) = Some (base64 bytes0) ->
      exists w3,
        logout c w2 = Ret tt w3 /\
        validate (base64 bytes0) w3 = false /\
        forall v, isAuthed (conn_of w2 c) = true ->
                  @handleMessage example_engine c (VObj [("logout", v)]) w2 = Ret tt w3.
Proof.
  split; [reflexivity|].
  apply (@token_valid_until_revoked example_engine bytes0 (VBool false) world0).
  reflexivity.
Defined.

(** ** The replies to a password *)


Section Password.
Context `{Engine}.



End Password.


(** ** Several commands in one frame *)

Lemma tryAuth_token c a t w :
  is_string (own a "password") = false ->
  own a "token" = VStr t ->
  validate t w = true ->
  exists w1,
    tryAuth c a w = Ret tt w1 /\
    isAuthed (conn_of w1 c) = true /\
    authToken (conn_of w1 c) = Some t /\
    sent w1 = (sent w ++ (c, buildMsg "auth" (DAuth true None)) :: initial_sync c w)%list.
Proof.
  intros Hpw Htok Hvalid.
  assert (nullish a = false) as Ha by (by destruct a).
  unfold tryAuth. rewrite !prop_own by done. run. rewrite Hpw, Htok. run.
  rewrite Hvalid.
  unfold connAuth, set_authToken, set_isAuthed, sendInitialStatus, getPipelineList,
    getPipelines, send. run.
  eexists. split; [reflexivity|].
  unfold conn_of, initial_sync. cbn. rewrite !lookup_insert_eq. cbn.
  by rewrite <- !app_assoc.
Qed.

Lemma tryAuth_password c a pw w :
  own a "password" = VStr pw ->
  tryAuth c a w = Ret tt (set_pending (pending w ++ [Compare c a]) w).
Proof.
  intros Hpw.
  assert (nullish a = false) as Ha by (by destruct a).
  unfold tryAuth, defer. rewrite !prop_own by done. run. by rewrite Hpw.
Qed.

Section Frames.
Context `{Engine}.

Lemma first_loop_auth c msg w :
  NoDup (keys msg) -> "auth" ∈ keys msg ->
  for_each (keys msg) (fun type =>
    if String.eqb type "auth" then tryAuth c (own msg type) else mret tt) w =
  tryAuth c (own msg "auth") w.
Proof.
  intros Hnd Hin.
  rewrite (for_each_once _ _ "auth") by
    (try done; intros x Hx; by destruct (String.eqb_spec x "auth")).
  done.
Qed.

(** C3, as amended.  The [auth] key of a frame is handled before every
    other key.  When it carries a token that passes the test (and no
    password), the connection is authenticated before the other keys are
    looked at, and the second loop dispatches every key of the frame in
    order, as for a session authenticated all along, until a command
    throws.  When it carries a password, the comparison is left pending:
    on a connection that is not authenticated yet, the frame has no other
    effect, and its other commands are not dispatched. *)
Theorem frame_commands_after_auth c msg w :
  NoDup (keys msg) ->
  (forall t,
     "auth" ∈ keys msg ->
     is_string (own (own msg "auth") "password") = false ->
     own (own msg "auth") "token" = VStr t ->
     validate t w = true ->
     exists w1,
       tryAuth c (own msg "auth") w = Ret tt w1 /\
       isAuthed (conn_of w1 c) = true /\
       handleMessage c msg w = for_each (keys msg) (dispatch c msg) w1) /\
  (forall pw,
     "auth" ∈ keys msg ->
     own (own msg "auth") "password" = VStr pw ->
     isAuthed (conn_of w c) = false ->
     handleMessage c msg w =
     Ret tt (set_pending (pending w ++ [Compare c (own msg "auth")]) w)) /\
  ("auth" ∉ keys msg ->
   isAuthed (conn_of w c) = true ->
   handleMessage c msg w = for_each (keys msg) (dispatch c msg) w).
Proof.
  intros Hnd. split; [|split].
  - intros t Hin Hpw Htok Hvalid.
    destruct (tryAuth_token c _ t w Hpw Htok Hvalid) as (w1 & Hrun & Hauth & _).
    exists w1. split; [done|]. split; [done|].
    unfold handleMessage. run. rewrite first_loop_auth, Hrun by done.
    run. by rewrite Hauth.
  - intros pw Hin Hpw Hc.
    unfold handleMessage. run.
    rewrite first_loop_auth, (tryAuth_password c _ pw w Hpw) by done. run.
    change (conn_of (set_pending _ w) c) with (conn_of w c). by rewrite Hc.
  - intros Hno Hc. unfold handleMessage. run.
    rewrite first_loop_skip by done. by rewrite Hc.
Qed.

End Frames.

(** A frame with the right password and a [stop] command, on a connection
    that is not authenticated, leaves the comparison pending and runs
    nothing; [stop] has not run when the comparison completes with a
    match either.  So it is under every engine. *)
Lemma password_frame_pending `{Engine} :
  let a := VObj [("password", VStr "hunter2")] in
  let msg := VObj [("auth", a); ("stop", VBool true)] in
  let w1 := set_pending [Compare 0 a] world0 in
  handleMessage 0 msg world0 = Ret tt w1 /\
  procs w1 = [] /\
  exists w2,
    step (CompareDone 0 None true bytes0) w1 = Some w2 /\
    isAuthed (conn_of w2 0) = true /\
    procs w2 = [].
Proof.
  cbv zeta. split; [|split; [reflexivity|]].
  - vm_compute. reflexivity.
  - eexists. split; [vm_compute; reflexivity|]. split; vm_compute; reflexivity.
Qed.

(** C3, as the claim states it, fails: the frame carries a valid
    credential and a [stop] command, and [stop] is not executed. *)
Lemma password_frame_drops_commands :
  let a := VObj [("password", VStr "hunter2")] in
  let msg := VObj [("auth", a); ("stop", VBool true)] in
  let w1 := set_pending [Compare 0 a] world0 in
  @handleMessage example_engine 0 msg world0 = Ret tt w1 /\
  procs w1 = [] /\
  exists w2,
    @step example_engine (CompareDone 0 None true bytes0) w1 = Some w2 /\
    isAuthed (conn_of w2 0) = true /\
    procs w2 = [].
Proof. exact (@password_frame_pending example_engine). Qed.

(** With a token in place of the password, [stop] in the same frame
    does run. *)
Example token_frame_runs_commands :
  let msg := VObj [("auth", VObj [("token", VStr token0)]); ("stop", VBool true)] in
  let w := set_tempTokens {[ token0 := VBool true ]} world0 in
  procs (world_of (@handleMessage example_engine 0 msg w)) =
  [ SpawnSync "pkill" ["-f"; "runner.rb"]; SpawnSync "killall" ["srtla_send"];
    SpawnSync "killall" ["srtla_send_upstream"]; SpawnSync "killall" ["belacoder"] ].
Proof. vm_compute. reflexivity. Qed.

Lemma frame_commands_after_auth_witness :
  let msg := VObj [("auth", VObj [("token", VStr token0)]); ("stop", VBool true)] in
  let w := set_tempTokens {[ token0 := VBool true ]} world0 in
  NoDup (keys msg) /\
  ("auth" ∈ keys msg) /\
  is_string (own (own msg "auth") "password") = false /\
  own (own msg "auth") "token" = VStr token0 /\
  validate token0 w = true /\
  exists w1,
    tryAuth 0 (own msg "auth") w = Ret tt w1 /\
    isAuthed (conn_of w1 0) = true /\
    @handleMessage example_engine 0 msg w = for_each (keys msg) (@dispatch example_engine 0 msg) w1.
Proof.
  intros msg w.
  assert (NoDup (keys msg)) as Hnd.
  { cbn. apply NoDup_cons_2; [|apply NoDup_singleton].
    intros Hin. apply list_elem_of_singleton in Hin. discriminate. }
  assert ("auth" ∈ keys msg) as Hin by (cbn; left).
  split; [done|]. split; [done|]. split; [reflexivity|]. split; [reflexivity|].
  split; [vm_compute; reflexivity|].
  apply (proj1 (@frame_commands_after_auth example_engine 0 msg w Hnd) token0); done.
Defined.

(** ** Frames that throw *)

Section Exceptions.
Context `{Engine}.

Lemma incoming_keeps_clients c f : keeps clients (incoming c f).
Proof. program. frame. Qed.

Lemma incoming_returns c f w :
  incoming c f w = Ret tt (world_of ((msg ← JSON_parse f; handleMessage c msg) w)).
Proof.
  unfold incoming, try_catch.
  by destruct ((msg ← JSON_parse f; handleMessage c msg) w) as [[] ?|?].
Qed.

(** C10, as amended.  A frame whose text is not valid JSON is dropped
    without any effect: the world after it is the world before.  An
    exception thrown while a parsed frame is handled is caught as well:
    the event loop goes on, from the world as the handling left it when
    it threw, with the same connections open and the same streaming
    flag.  What the handling did before it threw is not undone. *)
Theorem frame_exceptions_caught :
  (forall c w, step (Incoming c SyntaxError) w = Some w) /\
  (forall c msg w,
     step (Incoming c (Json msg)) w = Some (world_of (handleMessage c msg w))) /\
  (forall c f w,
     exists w', step (Incoming c f) w = Some w' /\
                clients w' = clients w /\ isStreaming w' = isStreaming w).
Proof.
  split; [done|]. split.
  - intros c msg w. unfold step, handler. by rewrite incoming_returns.
  - intros c f w. unfold step, handler. rewrite incoming_returns.
    eexists. split; [done|].
    pose proof (incoming_keeps_clients c f w) as Hclients.
    pose proof (handler_keeps_isStreaming (Incoming c f) eq_refl w) as Hflag.
    unfold handler in Hflag. rewrite incoming_returns in Hclients, Hflag.
    done.
Qed.

End Exceptions.

(** Here the token is accepted, the five replies go out and the session
    is marked authenticated before [start] throws on its [null]
    parameters.  So it is under every engine. *)
Lemma throwing_frame_effects `{Engine} :
  let msg := VObj [("auth", VObj [("token", VStr token0)]); ("start", VNull)] in
  let w := set_tempTokens {[ token0 := VBool true ]} world0 in
  exists w',
    handleMessage 0 msg w = Throw w' /\
    step (Incoming 0 (Json msg)) w = Some w' /\
    sent w = [] /\
    sent w' = (0, buildMsg "auth" (DAuth true None)) :: initial_sync 0 w /\
    isAuthed (conn_of w 0) = false /\
    isAuthed (conn_of w' 0) = true.
Proof.
  cbv zeta. eexists.
  split; [vm_compute; reflexivity|].
  repeat split; vm_compute; reflexivity.
Qed.

(** C10, as the claim states it, fails for a frame whose handling
    throws: replies have been sent and a session flag has changed. *)
Lemma throwing_frame_keeps_effects :
  let msg := VObj [("auth", VObj [("token", VStr token0)]); ("start", VNull)] in
  let w := set_tempTokens {[ token0 := VBool true ]} world0 in
  exists w',
    @handleMessage example_engine 0 msg w = Throw w' /\
    @step example_engine (Incoming 0 (Json msg)) w = Some w' /\
    sent w = [] /\
    sent w' = (0, buildMsg "auth" (DAuth true None)) :: initial_sync 0 w /\
    isAuthed (conn_of w 0) = false /\
    isAuthed (conn_of w' 0) = true.
Proof. exact (@throwing_frame_effects example_engine). Qed.

(** ** Applying a config *)

Section Apply.
Context `{Engine}.

(** Whatever the frame, [updateConfig] itself writes no field of the
    stored config but the two bitrates. *)
Lemma updateConfig_keeps_other_fields c params cb :
  keeps other_fields (updateConfig c params cb).
Proof. program. frame. Qed.

(** The callback of the name lookup, when the lookup succeeded, commits
    the eight fields of the frame at once and saves them. *)
Lemma lookup_done_commits c params pipeline w :
  nullish params = false ->
  exists w',
    lookup_done c params pipeline SpawnRunner None w = Ret tt w' /\
    config w' =
      {| password_hash := password_hash (config w);
         delay := own params "delay"; pipeline := own params "pipeline";
         min_br := own params "min_br"; max_br := own params "max_br";
         srt_latency := own params "srt_latency";
         srt_streamid := own params "srt_streamid";
         srtla_addr := own params "srtla_addr";
         srtla_port := own params "srtla_port" |} /\
    config_file w' = config w'.
Proof.
  intros Hp. unfold lookup_done, saveConfig, call, spawn.
  rewrite !prop_own by done. run.
  match goal with
  | |- context [broadcastMsgExcept c ?t ?d ?w0] =>
      destruct (broadcastMsgExcept_returns c t d w0) as [w1 Hsend];
      pose proof (ltac:(unfold broadcastMsgExcept, send; frame) :
                    keeps (fun w => (config w, config_file w)) (broadcastMsgExcept c t d)) as Hk;
      specialize (Hk w0); rewrite Hsend in *; cbn in Hk
  end.
  eexists. split; [reflexivity|]. cbn.
  injection Hk as Hconfig Hfile. by rewrite Hconfig, Hfile.
Qed.

End Apply.

(** C1.  [updateConfig] does leave a partly updated config behind: the
    bitrate check is [setBitrate], which stores and saves the pair it
    accepts, and a later check can still fail.  Here the frame has no
    [srt_latency]: the client is told so, and the stored bitrates have
    changed from 500 and 6000 to 1000 and 2000, in memory and on disk. *)
Theorem updateConfig_partial_commit `{Engine} :
  let params := VObj [("delay", num 0); ("pipeline", VStr h264);
                      ("min_br", num 1000); ("max_br", num 2000)] in
  exists w',
    updateConfig 0 params SpawnRunner world0 = Ret (VBool false) w' /\
    sent w' = [ (0, buildMsg "error" (DError [S "SRT latency not specified"]));
                (0, buildMsg "status" (DStatus false)) ] /\
    pending w' = [] /\
    (min_br (config world0), max_br (config world0)) = (num 500, num 6000) /\
    (min_br (config w'), max_br (config w')) = (num 1000, num 2000) /\
    config_file w' = config w' /\
    bitrate_file w' = Some (num 1000, num 2000).
Proof.
  cbv zeta. eexists.
  split; [vm_compute; reflexivity|].
  repeat split; vm_compute; reflexivity.
Qed.

(** ** Rejected credentials *)

(** A token that fails the test gets [{auth: {success: false}}] and
    nothing else happens. *)
Lemma tryAuth_unknown_token c a t w :
  is_string (own a "password") = false ->
  own a "token" = VStr t ->
  validate t w = false ->
  tryAuth c a w =
  Ret tt (set_sent (sent w ++ [(c, buildMsg "auth" (DAuth false None))]) w).
Proof.
  intros Hpw Htok Hvalid.
  assert (nullish a = false) as Ha by (by destruct a).
  unfold tryAuth, send. rewrite !prop_own by done. run.
  by rewrite Hpw, Htok, Hvalid.
Qed.


(** C9.  The test of a token reads a property of the token stores, and
    an object has the properties of [Object.prototype] besides its own:
    with both stores empty, the token ["constructor"] is in neither, yet
    the connection that sends it is authenticated and gets the initial
    sync. *)
Theorem tryAuth_inherited_token `{Engine} :
  let msg := VObj [("auth", VObj [("token", VStr "constructor")])] in
  tempTokens world0 = ∅ /\ persistentTokens world0 = ∅ /\
  isAuthed (conn_of world0 0) = false /\
  exists w',
    step (Incoming 0 (Json msg)) world0 = Some w' /\
    isAuthed (conn_of w' 0) = true /\
    authToken (conn_of w' 0) = Some "constructor" /\
    sent w' = (0, buildMsg "auth" (DAuth true None)) :: initial_sync 0 world0.
Proof.
  cbv zeta. split; [reflexivity|]. split; [reflexivity|]. split; [reflexivity|].
  eexists. split; [vm_compute; reflexivity|].
  repeat split; vm_compute; reflexivity.
Qed.

(** * Broadcasts, configuration and the event loop *)

(** ** Broadcasts *)

Lemma for_each_send (l : list nat) (keep : nat -> bool) msg w :
  for_each l (fun c =>
    authed ← get (fun w => isAuthed (conn_of w c));
    if keep c && authed then send c msg else mret tt) w =
  Ret tt (set_sent (sent w ++ map (fun c => (c, msg))
                     (List.filter (fun c => keep c && isAuthed (conn_of w c)) l)) w).
Proof.
  revert w. induction l as [|c l IH]; intros w.
  - cbn. rewrite app_nil_r. by destruct w.
  - cbn. run. destruct (keep c && isAuthed (conn_of w c)) eqn:Hk.
    + unfold send. run. rewrite IH. cbn.
      change (conn_of (set_sent _ w)) with (conn_of w).
      by rewrite <- app_assoc.
    + run. apply IH.
Qed.

Lemma broadcastMsg_sends type d w :
  broadcastMsg type d w =
  Ret tt (set_sent (sent w ++ recipients (fun _ => true) (buildMsg type d) w) w).
Proof.
  unfold broadcastMsg, recipients. run.
  exact (for_each_send (clients w) (fun _ => true) (buildMsg type d) w).
Qed.

Lemma broadcastMsgExcept_sends conn type d w :
  broadcastMsgExcept conn type d w =
  Ret tt (set_sent (sent w ++ recipients (fun c => negb (Nat.eqb c conn)) (buildMsg type d) w) w).
Proof.
  unfold broadcastMsgExcept, recipients. run.
  exact (for_each_send (clients w) (fun c => negb (Nat.eqb c conn)) (buildMsg type d) w).
Qed.

Lemma filter_recipients c (P : nat -> bool) (msg : message) l :
  NoDup l ->
  map snd (List.filter (fun m : nat * message => Nat.eqb (fst m) c)
             (map (fun c' => (c', msg)) (List.filter P l))) =
  if bool_decide (c ∈ l) && P c then [msg] else [].
Proof.
  induction 1 as [|c' l Hnotin Hnd IH]; [done|].
  destruct (decide (c' = c)) as [->|Hne].
  - rewrite bool_decide_eq_false_2 in IH by done.
    rewrite bool_decide_eq_true_2 by left.
    cbn [List.filter]. destruct (P c); cbn [map List.filter fst snd andb] in *; [|done].
    rewrite Nat.eqb_refl. cbn [map snd]. by rewrite IH.
  - assert (bool_decide (c ∈ c' :: l) = bool_decide (c ∈ l)) as ->.
    { apply bool_decide_ext. rewrite elem_of_cons.
      split; [intros [?|?]; [congruence|done]|by right]. }
    rewrite <- IH. cbn [List.filter].
    destruct (P c'); cbn [map List.filter fst snd]; [|done].
    by rewrite (proj2 (Nat.eqb_neq c' c) Hne).
Qed.

Lemma inbox_recipients c keep msg w :
  NoDup (clients w) ->
  inbox c (set_sent (sent w ++ recipients keep msg w) w) =
  (inbox c w ++
   if bool_decide (c ∈ clients w) && keep c && isAuthed (conn_of w c) then [msg] else [])%list.
Proof.
  intros Hnd. unfold inbox, recipients. cbn [sent set_sent].
  rewrite List.filter_app, map_app. f_equal.
  rewrite (filter_recipients c _ msg (clients w) Hnd).
  by rewrite andb_assoc.
Qed.

Lemma clients_world2 : NoDup (clients world2).
Proof. apply (bool_decide_unpack _). vm_compute. exact I. Qed.

(** X1.  [broadcastMsg] reaches the authenticated clients and nobody
    else: where [wss.clients] holds each connection once, a connection
    is sent one copy of the frame if it is a client and is authenticated,
    and nothing otherwise. *)
Theorem broadcast_reaches_authenticated type d c w :
  NoDup (clients w) ->
  exists w',
    broadcastMsg type d w = Ret tt w' /\
    inbox c w' =
    (inbox c w ++
     if bool_decide (c ∈ clients w) && isAuthed (conn_of w c)
     then [buildMsg type d] else [])%list.
Proof.
  intros Hnd. eexists. split; [apply broadcastMsg_sends|].
  rewrite inbox_recipients by done. by rewrite andb_true_r.
Qed.

Lemma broadcast_reaches_authenticated_witness :
  NoDup (clients world2) /\
  exists w',
    broadcastMsg "status" (DStatus false) world2 = Ret tt w' /\
    inbox 1 w' =
    (inbox 1 world2 ++
     if bool_decide (1 ∈ clients world2) && isAuthed (conn_of world2 1)
     then [buildMsg "status" (DStatus false)] else [])%list.
Proof.
  split; [exact clients_world2|].
  apply (broadcast_reaches_authenticated "status" (DStatus false) 1 world2 clients_world2).
Defined.

(** X2.  [broadcastMsgExcept] leaves out the connection it is given and
    otherwise does as [broadcastMsg]: one copy of the frame to each
    authenticated client other than [conn], nothing to [conn] and nothing
    to a connection that is not authenticated. *)
Theorem broadcast_skips_sender conn type d c w :
  NoDup (clients w) ->
  exists w',
    broadcastMsgExcept conn type d w = Ret tt w' /\
    inbox c w' =
    (inbox c w ++
     if bool_decide (c ∈ clients w) && negb (Nat.eqb c conn) && isAuthed (conn_of w c)
     then [buildMsg type d] else [])%list.
Proof.
  intros Hnd. eexists. split; [apply broadcastMsgExcept_sends|].
  by rewrite inbox_recipients.
Qed.

Lemma broadcast_skips_sender_witness :
  NoDup (clients world2) /\
  exists w',
    broadcastMsgExcept 0 "config" (DConfig config0) world2 = Ret tt w' /\
    inbox 0 w' =
    (inbox 0 world2 ++
     if bool_decide (0 ∈ clients world2) && negb (Nat.eqb 0 0) && isAuthed (conn_of world2 0)
     then [buildMsg "config" (DConfig config0)] else [])%list.
Proof.
  split; [exact clients_world2|].
  apply (broadcast_skips_sender 0 "config" (DConfig config0) 0 world2 clients_world2).
Defined.

(** X3.  The status poll notifies on a change only.  When it finds what
    [isStreaming] already says, nothing is assigned and nothing is sent;
    when it finds the opposite, the flag is assigned and every
    authenticated client is sent the new status. *)
Theorem updateStatus_broadcasts_changes error w :
  let streaming := bool_decide (error = None) in
  updateStatus error w =
  Ret tt (if eqb streaming (isStreaming w) then w
          else let w1 := set_isStreaming streaming w in
               set_sent (sent w ++ recipients (fun _ => true)
                           (buildMsg "status" (DStatus streaming)) w) w1).
Proof.
  intros streaming. unfold updateStatus. run. fold streaming.
  destruct (eqb streaming (isStreaming w)); [done|]. cbn.
  by rewrite broadcastMsg_sends.
Qed.


(** ** The pipeline table *)

Section Pipelines.
Context `{Engine}.

(** X15.  The pipeline list sent to a client and [searchPipelines] agree:
    an identifier of the list resolves to the path of the pipeline of
    that name, and an identifier that is not in the list resolves to
    [null] or [undefined], which [updateConfig] reports as "pipeline not
    found"; that holds for the names of [Object.prototype] too. *)
Theorem pipeline_list_resolves id w :
  exists list,
    getPipelineList w = Ret list w /\
    match list !! id with
    | Some name =>
        exists path,
          pipelines w !! id = Some (name, path) /\
          searchPipelines (VStr id) w = Ret (VStr path) w
    | None =>
        exists v, searchPipelines (VStr id) w = Ret v w /\ nullish v = true
    end.
Proof.
  exists (fst <$> pipelines w). split; [reflexivity|].
  unfold searchPipelines, getPipelines. run.
  change (gmap_fmap _ _ fst (pipelines w)) with (fst <$> pipelines w).
  rewrite lookup_fmap. destruct (pipelines w !! id) as [[name path]|]; cbn.
  - by exists path.
  - destruct (inherited id); by eexists.
Qed.

End Pipelines.

Section Scan.
Context (sha1 : string -> string).

Lemma read_dir_abs_path_snoc files f basename dir :
  read_dir_abs_path sha1 (files ++ [f]) basename dir =
  <[sha1 (basename ++ "/" ++ f) := (basename ++ "/" ++ f, dir ++ f)]>
    (read_dir_abs_path sha1 files basename dir).
Proof. unfold read_dir_abs_path. by rewrite foldl_app. Qed.

Lemma read_dir_abs_path_entry files basename dir id name path :
  read_dir_abs_path sha1 files basename dir !! id = Some (name, path) ->
  exists f, f ∈ files /\ name = basename ++ "/" ++ f /\ id = sha1 name /\ path = dir ++ f.
Proof.
  induction files as [|f files IH] using rev_ind.
  - unfold read_dir_abs_path. cbn. by rewrite lookup_empty.
  - rewrite read_dir_abs_path_snoc.
    destruct (decide (sha1 (basename ++ "/" ++ f) = id)) as [<-|Hne].
    + rewrite lookup_insert_eq. intros [= <- <-]. exists f.
      split; [apply elem_of_app; right; by left|done].
    + rewrite lookup_insert_ne by done. intros Hfind.
      destruct (IH Hfind) as (f' & ? & ?). exists f'.
      split; [apply elem_of_app; by left|done].
Qed.

Lemma read_dir_abs_path_lists files basename dir f :
  f ∈ files ->
  (forall f', f' ∈ files ->
     sha1 (basename ++ "/" ++ f') = sha1 (basename ++ "/" ++ f) -> f' = f) ->
  read_dir_abs_path sha1 files basename dir !! sha1 (basename ++ "/" ++ f) =
  Some (basename ++ "/" ++ f, dir ++ f).
Proof.
  induction files as [|g files IH] using rev_ind; intros Hin Hinj.
  - by apply elem_of_nil in Hin.
  - rewrite read_dir_abs_path_snoc.
    destruct (decide (sha1 (basename ++ "/" ++ g) = sha1 (basename ++ "/" ++ f)))
      as [Heq|Hne].
    + rewrite Heq, lookup_insert_eq.
      rewrite (Hinj g); [done| |done]. apply elem_of_app. right. by left.
    + rewrite lookup_insert_ne by done. apply IH.
      * apply elem_of_app in Hin as [Hin|Hin]; [done|].
        apply list_elem_of_singleton in Hin. by subst.
      * intros f' Hf'. apply Hinj. apply elem_of_app. by left.
Qed.

(** X16.  Every entry of the table that [getPipelines] builds comes from
    a file of a pipeline directory: its identifier is the digest of its
    name, its name is the directory's base name, a slash and the file
    name, its path is the directory followed by the file name; and the
    jetson directory is read on jetson hardware only. *)
Theorem scan_pipelines_entry hw belacoder_path readdir id name path :
  scan_pipelines sha1 hw belacoder_path readdir !! id = Some (name, path) ->
  id = sha1 name /\
  ((exists f, f ∈ readdir (belacoder_path ++ "/pipeline/generic/") /\
              name = "generic/" ++ f /\
              path = (belacoder_path ++ "/pipeline/generic/") ++ f) \/
   (hw = "jetson" /\
    exists f, f ∈ readdir (belacoder_path ++ "/pipeline/jetson/") /\
              name = "jetson/" ++ f /\
              path = (belacoder_path ++ "/pipeline/jetson/") ++ f)).
Proof.
  unfold scan_pipelines. intros Hfind.
  apply lookup_union_Some_raw in Hfind as [Hfind|[_ Hfind]].
  - apply read_dir_abs_path_entry in Hfind as (f & ? & ? & ? & ?).
    split; [done|]. left. exists f. by subst.
  - destruct (String.eqb_spec hw "jetson") as [->|_]; [|by rewrite lookup_empty in Hfind].
    apply read_dir_abs_path_entry in Hfind as (f & ? & ? & ? & ?).
    split; [done|]. right. split; [done|]. exists f. by subst.
Qed.

(** X17.  Every file of the generic pipeline directory is in the table
    under the digest of its name, on any hardware, provided no other file
    of that directory has a name of the same digest: the generic entries
    are assigned last, so nothing of the jetson directory replaces one. *)
Theorem scan_pipelines_generic hw belacoder_path readdir f :
  let dir := belacoder_path ++ "/pipeline/generic/" in
  f ∈ readdir dir ->
  (forall f', f' ∈ readdir dir ->
     sha1 ("generic/" ++ f') = sha1 ("generic/" ++ f) -> f' = f) ->
  scan_pipelines sha1 hw belacoder_path readdir !! sha1 ("generic/" ++ f) =
  Some ("generic/" ++ f, dir ++ f).
Proof.
  intros dir Hin Hinj. unfold scan_pipelines.
  apply lookup_union_Some_l.
  exact (read_dir_abs_path_lists (readdir dir) "generic" dir f Hin Hinj).
Qed.

End Scan.

Lemma scan_pipelines_entry_witness :
  let readdir := fun dir : string =>
    if String.eqb dir "/opt/belacoder/pipeline/generic/" then ["h264_camlink_1080p"] else [] in
  scan_pipelines (fun name => name) "rk3588" "/opt/belacoder" readdir !! "generic/h264_camlink_1080p" =
    Some ("generic/h264_camlink_1080p", "/opt/belacoder/pipeline/generic/h264_camlink_1080p") /\
  "generic/h264_camlink_1080p" = (fun name : string => name) "generic/h264_camlink_1080p".
Proof.
  intros readdir.
  assert (scan_pipelines (fun name => name) "rk3588" "/opt/belacoder" readdir !! "generic/h264_camlink_1080p" =
          Some ("generic/h264_camlink_1080p", "/opt/belacoder/pipeline/generic/h264_camlink_1080p"))
    as Hfind by (vm_compute; reflexivity).
  split; [exact Hfind|].
  exact (proj1 (scan_pipelines_entry (fun name => name) "rk3588" "/opt/belacoder" readdir
                  _ _ _ Hfind)).
Defined.

Lemma scan_pipelines_generic_witness :
  let readdir := fun dir : string =>
    if String.eqb dir "/opt/belacoder/pipeline/generic/"
    then ["h264_camlink_1080p"; "h265_camlink_1080p"] else ["h265_camlink_1080p"] in
  let dir := "/opt/belacoder/pipeline/generic/" in
  "h265_camlink_1080p" ∈ readdir dir /\
  scan_pipelines (fun name => name) "jetson" "/opt/belacoder" readdir !! "generic/h265_camlink_1080p" =
    Some ("generic/h265_camlink_1080p", "/opt/belacoder/pipeline/generic/h265_camlink_1080p").
Proof.
  intros readdir dir.
  assert ("h265_camlink_1080p" ∈ readdir dir) as Hin by (right; left).
  split; [exact Hin|].
  apply (scan_pipelines_generic (fun name => name) "jetson" "/opt/belacoder" readdir
           "h265_camlink_1080p" Hin).
  intros f' _ Heq. by injection Heq.
Defined.

(** ** Checks on numbers *)

Section Checks.
Context `{Engine}.

Lemma setBitrate_commits params a b w :
  nullish params = false ->
  valid_bitrate params a b ->
  setBitrate params w =
  Ret (Some (VNum (Fin a), VNum (Fin b)))
      (commit_bitrate (VNum (Fin a)) (VNum (Fin b)) w).
Proof.
  intros Hp (Hmin & Hmax & ? & ? & ? & ? & ?).
  unfold setBitrate, or_else, lt, gt, saveConfig, spawnSync, commit_bitrate.
  rewrite !prop_own by done. rewrite Hmin, Hmax. run.
  repeat (match goal with
          | |- context [Qle_bool ?x ?y] => destruct (Qle_bool x y) eqn:?
          end; run);
  Qbool; first [reflexivity | exfalso; lra].
Qed.



End Checks.

(** ** Validation of a config *)

Section Validation.
Context `{Engine}.

#[local] Arguments or_else : simpl never.
#[local] Arguments setBitrate : simpl never.
#[local] Arguments searchPipelines : simpl never.




End Validation.


Section Accepting.
Context `{Engine}.



End Accepting.




(** ** The name lookup completes *)

Section Lookup.
Context `{Engine}.

Lemma lookup_done_result c params pipeline w :
  nullish params = false ->
  lookup_done c params pipeline SpawnRunner None w =
    Ret tt
      (let cfg := applied_config params w in
       let w1 := set_config_file cfg (set_config cfg w) in
       let w2 := set_sent (sent w1 ++ recipients (others c)
                             (buildMsg "config" (DConfig cfg)) w1) w1 in
       set_procs (procs w2 ++
                  [Spawn "ruby" [VStr "runner.rb"; pipeline; own params "delay";
                                 own params "srtla_addr"; own params "srtla_port";
                                 own params "srt_latency"; own params "srt_streamid"]])
                 w2) /\
  forall err,
    lookup_done c params pipeline SpawnRunner (Some err) w =
    Ret tt
      (set_sent (sent w ++
                 [ (c, buildMsg "error"
                         (DError [S "failed to resolve SRTLA addr "; V (own params "srtla_addr")]));
                   (c, buildMsg "status" (DStatus false)) ]) w).
Proof.
  intros Hp. split.
  - unfold lookup_done, saveConfig, call, spawn. rewrite !prop_own by done. run.
    by rewrite broadcastMsgExcept_sends.
  - intros err. unfold lookup_done, startError, sendError, send.
    rewrite !prop_own by done. run. by rewrite <- app_assoc.
Qed.

(** X7.  A [bitrate] frame of an authenticated session while the service
    streams.  A pair that passes the checks of [setBitrate] is stored in
    memory and on disk, written to the bitrate file, signalled to
    belacoder, and sent to every other authenticated client; the sender
    gets no reply.  Any other pair changes nothing and sends nothing, not
    even an error. *)
Theorem bitrate_applied_when_streaming c v w :
  isStreaming w = true ->
  isAuthed (conn_of w c) = true ->
  nullish v = false ->
  number_or_absent (own v "min_br") = true ->
  number_or_absent (own v "max_br") = true ->
  (forall a b,
     valid_bitrate v a b ->
     handleMessage c (VObj [("bitrate", v)]) w =
     Ret tt
       (let w1 := commit_bitrate (VNum (Fin a)) (VNum (Fin b)) w in
        set_sent (sent w1 ++ recipients (others c)
                    (buildMsg "bitrate" (DBitrate (VNum (Fin a)) (VNum (Fin b)))) w1) w1)) /\
  ((forall a b, ~ valid_bitrate v a b) ->
   handleMessage c (VObj [("bitrate", v)]) w = Ret tt w).
Proof.
  intros Hs Hc Hv Hmin Hmax.
  assert (handleMessage c (VObj [("bitrate", v)]) w =
            (br ← setBitrate v;
             match br with
             | Some (min, max) => broadcastMsgExcept c "bitrate" (DBitrate min max)
             | None => mret tt
             end) w) as Hrun.
  { unfold handleMessage, dispatch. run. rewrite Hc. cbn. rewrite Hs.
    run. by destruct (setBitrate v w) as [[[]|] ?|?]; [destruct (broadcastMsgExcept _ _ _ _) as [[] ?|?]|..]. }
  rewrite Hrun. split.
  - intros a b Hb. run. rewrite (setBitrate_commits v a b w Hv Hb).
    by rewrite broadcastMsgExcept_sends.
  - intros Hno. run.
    destruct (setBitrate_numbers v w Hv Hmin Hmax)
      as [(a & b & ? & ? & ? & ? & ? & ? & ? & _)|[_ ->]]; [|done].
    by destruct (Hno a b).
Qed.

End Lookup.

Lemma bitrate_applied_when_streaming_witness :
  let v := VObj [("min_br", num 1000); ("max_br", num 2000)] in
  isStreaming world2 = true /\
  isAuthed (conn_of world2 0) = true /\
  valid_bitrate v 1000 2000 /\
  @handleMessage example_engine 0 (VObj [("bitrate", v)]) world2 =
  Ret tt
    (let w1 := commit_bitrate (num 1000) (num 2000) world2 in
     set_sent (sent w1 ++ recipients (others 0)
                 (buildMsg "bitrate" (DBitrate (num 1000) (num 2000))) w1) w1).
Proof.
  intros v.
  assert (valid_bitrate v 1000 2000) as Hv.
  { unfold valid_bitrate. repeat split; try reflexivity; by apply Qle_bool_imp_le. }
  split; [reflexivity|]. split; [reflexivity|]. split; [exact Hv|].
  exact (proj1 (@bitrate_applied_when_streaming example_engine 0 v world2
                  eq_refl eq_refl eq_refl eq_refl eq_refl) 1000%Q 2000%Q Hv).
Defined.

(** ** Starting and stopping a stream *)


Section Start.
Context `{Engine}.



(** X6.  The completion of the name lookup that a [start] frame left
    pending.  On success the eight fields of the frame are assigned to
    the stored config, the config is saved and sent to every
    authenticated client but the sender, and the runner is spawned with
    the path of the pipeline and five of the fields.  On failure the
    sender alone is sent an error naming the address and
    [{status: {is_streaming: false}}]; the stored config stays as it is
    and no process is started. *)
Theorem lookup_completion i c params pipeline w :
  pending w !! i = Some (Lookup c params pipeline SpawnRunner) ->
  nullish params = false ->
  let w0 := set_pending (delete i (pending w)) w in
  step (LookupDone i None) w =
    Some
      (let cfg := applied_config params w0 in
       let w1 := set_config_file cfg (set_config cfg w0) in
       let w2 := set_sent (sent w1 ++ recipients (others c)
                             (buildMsg "config" (DConfig cfg)) w1) w1 in
       set_procs (procs w2 ++
                  [Spawn "ruby" [VStr "runner.rb"; pipeline; own params "delay";
                                 own params "srtla_addr"; own params "srtla_port";
                                 own params "srt_latency"; own params "srt_streamid"]])
                 w2) /\
  forall err,
    step (LookupDone i (Some err)) w =
    Some
      (set_sent (sent w0 ++
                 [ (c, buildMsg "error"
                         (DError [S "failed to resolve SRTLA addr "; V (own params "srtla_addr")]));
                   (c, buildMsg "status" (DStatus false)) ]) w0).
Proof.
  intros Hi Hp w0.
  destruct (lookup_done_result c params pipeline w0 Hp) as [Hyes Hno].
  split; [|intros err]; unfold step, handler; run; rewrite Hi; run; fold w0.
  - by rewrite Hyes.
  - by rewrite Hno.
Qed.


(** X19.  The frames [stop] and [command] of an authenticated session.
    [stop] runs the four kill commands in order, whether the service
    streams or not, and whatever the frame carries.  [command] runs
    [poweroff] or [reboot] when it carries exactly that string, and
    otherwise does nothing and sends nothing. *)
Theorem control_frames c v w :
  isAuthed (conn_of w c) = true ->
  handleMessage c (VObj [("stop", v)]) w =
    Ret tt (set_procs (procs w ++
                       [ SpawnSync "pkill" ["-f"; "runner.rb"];
                         SpawnSync "killall" ["srtla_send"];
                         SpawnSync "killall" ["srtla_send_upstream"];
                         SpawnSync "killall" ["belacoder"] ]) w) /\
  (v = VStr "poweroff" \/ v = VStr "reboot" ->
   exists s, v = VStr s /\
     handleMessage c (VObj [("command", v)]) w =
     Ret tt (set_procs (procs w ++ [SpawnSync s []]) w)) /\
  (v <> VStr "poweroff" -> v <> VStr "reboot" ->
   handleMessage c (VObj [("command", v)]) w = Ret tt w).
Proof.
  intros Hc. unfold handleMessage, dispatch, stop, command, spawnSync. run.
  rewrite Hc. cbn. split; [|split].
  - run. by rewrite <- !app_assoc.
  - intros [->| ->]; eexists; (split; [reflexivity|]); by run.
  - intros Hoff Hre. destruct v as [| | | |s|]; try by run.
    destruct (String.eqb_spec s "poweroff") as [->|_]; [done|].
    destruct (String.eqb_spec s "reboot") as [->|_]; [done|]. by run.
Qed.

End Start.

Lemma lookup_completion_witness :
  let w := set_pending [Lookup 0 start0 (VStr "/opt/belacoder/pipeline/generic/h264_camlink_1080p") SpawnRunner] world2 in
  pending w !! 0 = Some (Lookup 0 start0 (VStr "/opt/belacoder/pipeline/generic/h264_camlink_1080p") SpawnRunner) /\
  nullish start0 = false /\
  exists w1, @step example_engine (LookupDone 0 None) w = Some w1 /\
  exists w2, @step example_engine (LookupDone 0 (Some "ENOTFOUND")) w = Some w2 /\
             config w1 = applied_config start0 w /\ config w2 = config w.
Proof.
  intros w.
  split; [reflexivity|]. split; [reflexivity|].
  destruct (@lookup_completion example_engine 0 0 start0
              (VStr "/opt/belacoder/pipeline/generic/h264_camlink_1080p") w
              eq_refl eq_refl) as [Hyes Hno].
  eexists. split; [exact Hyes|].
  eexists. split; [exact (Hno "ENOTFOUND")|].
  split; reflexivity.
Defined.


Lemma control_frames_witness :
  isAuthed (conn_of world1 0) = true /\
  @handleMessage example_engine 0 (VObj [("command", VStr "reboot")]) world1 =
  Ret tt (set_procs [SpawnSync "reboot" []] world1) /\
  @handleMessage example_engine 0 (VObj [("command", VStr "shutdown")]) world1 = Ret tt world1.
Proof.
  split; [reflexivity|].
  destruct (@control_frames example_engine 0 (VStr "shutdown") world1 eq_refl) as (_ & _ & Hno).
  split; [reflexivity|]. by apply Hno.
Defined.

(** ** Issuing and revoking a token *)

Section Persistence.
Context `{Engine}.

(** X13.  Where a token goes when a password comparison succeeds.  With
    a truthy [persistent_token] in the frame, the new token is added to
    the persistent store and the token file is rewritten with it, and
    the temporary store is untouched; otherwise the token is added to
    the temporary store only, and neither the persistent store nor the
    file changes. *)
Theorem password_token_store i c msg randomBytes w :
  pending w !! i = Some (Compare c msg) ->
  nullish msg = false ->
  let token := base64 randomBytes in
  exists w',
    step (CompareDone i None true randomBytes) w = Some w' /\
    if truthy (own msg "persistent_token")
    then persistentTokens w' = <[token := VBool true]> (persistentTokens w) /\
         tokens_file w' = persistentTokens w' /\
         tempTokens w' = tempTokens w
    else tempTokens w' = <[token := VBool true]> (tempTokens w) /\
         tokens_file w' = tokens_file w /\
         persistentTokens w' = persistentTokens w.
Proof.
  intros Hi Hmsg token. unfold step, handler. run. rewrite Hi. run.
  unfold compare_done, genAuthToken, savePersistentTokens, set_authToken, connAuth,
    set_isAuthed, sendInitialStatus, getPipelineList, getPipelines, send.
  rewrite prop_own by done. run.
  destruct (truthy (own msg "persistent_token")); run; eexists; split; done.
Qed.

(** X14.  [logout] revokes the token of the session and no other: the
    token is gone from the temporary store, every other token is where
    it was in both stores, the session is back to a fresh connection,
    every other session is untouched, a session that logged in with the
    same token included, and nothing is sent. *)
Theorem logout_revokes_own_token c v t w :
  isAuthed (conn_of w c) = true ->
  authToken (conn_of w c) = Some t ->
  t <> "" ->
  exists w',
    handleMessage c (VObj [("logout", v)]) w = Ret tt w' /\
    conn_of w' c = new_conn /\
    tempTokens w' !! t = None /\
    (forall t', t' <> t ->
       tempTokens w' !! t' = tempTokens w !! t' /\
       persistentTokens w' !! t' = persistentTokens w !! t') /\
    (forall c', c' <> c -> conn_of w' c' = conn_of w c') /\
    sent w' = sent w /\ config w' = config w.
Proof.
  intros Hc Ht Hne.
  rewrite logout_frame by done.
  unfold logout, savePersistentTokens. run. rewrite Ht.
  apply String.eqb_neq in Hne. rewrite Hne. run.
  destruct (has (persistentTokens w) t); run; eexists; (split; [reflexivity|]);
    cbn; unfold conn_of; cbn; rewrite lookup_insert_eq, lookup_delete_eq;
    (repeat split; try done);
    try (intros; by rewrite lookup_delete_ne);
    try (intros; by rewrite lookup_insert_ne).
Qed.

End Persistence.

Lemma password_token_store_witness :
  let msg := VObj [("password", VStr "hunter2"); ("persistent_token", VBool true)] in
  let w := set_pending [Compare 0 msg] world0 in
  pending w !! 0 = Some (Compare 0 msg) /\
  nullish msg = false /\
  exists w',
    @step example_engine (CompareDone 0 None true bytes0) w = Some w' /\
    persistentTokens w' = <[token0 := VBool true]> (persistentTokens w) /\
    tokens_file w' = persistentTokens w' /\
    tempTokens w' = tempTokens w.
Proof.
  intros msg w. split; [reflexivity|]. split; [reflexivity|].
  exact (@password_token_store example_engine 0 0 msg bytes0 w eq_refl eq_refl).
Defined.

Lemma logout_revokes_own_token_witness :
  isAuthed (conn_of world2 0) = true /\
  authToken (conn_of world2 0) = Some token0 /\
  token0 <> "" /\
  exists w',
    @handleMessage example_engine 0 (VObj [("logout", VNull)]) world2 = Ret tt w' /\
    conn_of w' 0 = new_conn /\
    tempTokens w' !! token0 = None /\
    (forall t', t' <> token0 ->
       tempTokens w' !! t' = tempTokens world2 !! t' /\
       persistentTokens w' !! t' = persistentTokens world2 !! t') /\
    (forall c', c' <> 0 -> conn_of w' c' = conn_of world2 c') /\
    sent w' = sent world2 /\ config w' = config world2.
Proof.
  assert (token0 <> "") as Hne by discriminate.
  split; [reflexivity|]. split; [reflexivity|]. split; [exact Hne|].
  exact (@logout_revokes_own_token example_engine 0 VNull token0 world2 eq_refl eq_refl Hne).
Defined.

(** ** Relations between the world before and the world after *)

#[global] Instance invariant_preorder I : PreOrder (invariant I).
Proof.
  split; [by intros w Hw|].
  intros w1 w2 w3 H12 H23 H1. apply H23, H12, H1.
Qed.

Section Within.
Context (R : relation world) `{!PreOrder R}.

Lemma within_ret {B} (b : B) : within R (mret b).
Proof. by intros w. Qed.

Lemma within_throw {B} : within R (@throw B).
Proof. by intros w. Qed.

Lemma within_get {B} (g : world -> B) : within R (get g).
Proof. by intros w. Qed.

Lemma within_prop o k : within R (prop o k).
Proof. intros w. by destruct o. Qed.

Lemma within_ToPrimitive v : within R (ToPrimitive v).
Proof. intros w. destruct v; try done. cbn. by destruct (assoc _ _). Qed.

Lemma within_modify (g : world -> world) :
  (forall w, R w (g w)) -> within R (modify g).
Proof. intros Hg w. apply Hg. Qed.

Lemma within_bind {B C} (m : M B) (k : B -> M C) :
  within R m -> (forall b, within R (k b)) -> within R (m ≫= k).
Proof.
  intros Hm Hk w. specialize (Hm w). unfold mbind, M_bind.
  destruct (m w) as [b w'|w']; [|done].
  cbn in Hm. transitivity w'; [exact Hm | apply Hk].
Qed.

(** Two assignments in a row, of which the first alone may break [R]. *)
Lemma within_modify2 {C} (g1 g2 : world -> world) (k : unit -> M C) :
  (forall w, R w (g2 (g1 w))) -> (forall u, within R (k u)) ->
  within R (modify g1 ≫= fun _ => modify g2 ≫= k).
Proof. intros Hg Hk w. cbn. transitivity (g2 (g1 w)); [apply Hg | apply Hk]. Qed.

Lemma within_modify2_end (g1 g2 : world -> world) :
  (forall w, R w (g2 (g1 w))) ->
  within R (modify g1 ≫= fun _ => modify g2).
Proof. intros Hg w. apply Hg. Qed.

Lemma within_fmap {B C} (g : B -> C) (m : M B) : within R m -> within R (g <$> m).
Proof. intros Hm w. specialize (Hm w). unfold fmap, M_fmap. by destruct (m w). Qed.

Lemma within_or_else (p q : M bool) : within R p -> within R q -> within R (or_else p q).
Proof. intros Hp Hq. apply within_bind; [done|]. intros []; [apply within_ret|done]. Qed.

Lemma within_for_each {B} (l : list B) (body : B -> M unit) :
  (forall x, within R (body x)) -> within R (for_each l body).
Proof.
  intros Hbody. induction l as [|x l IH]; [by intros w|].
  cbn. apply within_bind; [apply Hbody | by intros _].
Qed.

Lemma within_try_catch (body : M unit) : within R body -> within R (try_catch body).
Proof. intros Hb w. specialize (Hb w). unfold try_catch. by destruct (body w). Qed.

End Within.

Lemma within_handler `{Engine} (R : relation world) e w w' :
  within R (handler e) -> step e w = Some w' -> R w w'.
Proof.
  intros Hh Hstep. specialize (Hh w). unfold step in Hstep.
  destruct (handler e w); by simplify_eq.
Qed.

(** Splits a computation along its binds, loops and branches; [leaf]
    closes the parts known already, [side] the assignments. *)
Ltac wapply l := apply l; try exact _.

Ltac within_step leaf side :=
  first
    [ wapply within_ret | wapply within_throw | wapply within_get
    | wapply within_prop | wapply within_ToPrimitive
    | leaf
    | wapply within_fmap
    | wapply within_or_else
    | wapply within_try_catch
    | wapply within_modify; intros ?; side
    | wapply within_modify2; [intros ?; side | intros ?]
    | wapply within_modify2_end; intros ?; side
    | wapply within_for_each; intros ?
    | wapply within_bind; [|intros ?]
    | match goal with
      | |- within _ (if ?b then _ else _) => destruct b eqn:?
      | |- within _ (match ?x with _ => _ end) => destruct x eqn:?
      end ].

Ltac within_all leaf side := repeat within_step leaf side.

(** ** What is on disk *)

Section Saved.
Context `{Engine}.



End Saved.


(** ** Where tokens come from *)

#[global] Instance no_new_token_preorder : PreOrder no_new_token.
Proof.
  split; [by intros w|].
  intros w1 w2 w3 [? ?] [? ?]. split; by etrans.
Qed.

Section Issuance.
Context `{Engine}.

Lemma handler_no_new_token e :
  issues_token e = false -> within no_new_token (handler e).
Proof.
  intros He. destruct e; cbn in He; program;
    within_all ltac:(congruence)
      ltac:(by (split; cbn; first [reflexivity | apply delete_subseteq])).
Qed.

(** X9.  Tokens are issued by a password comparison that succeeded, and
    by nothing else: no other event adds a token to either store. *)
Theorem tokens_only_from_passwords e w w' :
  issues_token e = false -> step e w = Some w' ->
  tempTokens w' ⊆ tempTokens w /\ persistentTokens w' ⊆ persistentTokens w.
Proof.
  intros He Hstep.
  exact (within_handler _ e w w' (handler_no_new_token e He) Hstep).
Qed.

End Issuance.

Lemma tokens_only_from_passwords_witness :
  let e := Incoming 0 (Json (VObj [("logout", VNull)])) in
  issues_token e = false /\
  exists w',
    @step example_engine e world1 = Some w' /\
    tempTokens w' ⊆ tempTokens world1 /\ persistentTokens w' ⊆ persistentTokens world1.
Proof.
  intros e. split; [reflexivity|].
  eexists. split; [reflexivity|].
  apply (@tokens_only_from_passwords example_engine e world1); reflexivity.
Defined.

(** ** Sessions are private *)

#[global] Instance unchanged_preorder {A} (f : world -> A) : PreOrder (unchanged f).
Proof. split; [by intros w|]. intros w1 w2 w3 H12 H23. unfold unchanged in *. congruence. Qed.

#[global] Instance quiet_preorder c : PreOrder (quiet c).
Proof.
  split; [by intros w Hw|].
  intros w1 w2 w3 H12 H23 H1. destruct (H12 H1) as [H2 Hi2].
  destruct (H23 H2) as [H3 Hi3]. split; [done|congruence].
Qed.

Lemma conn_of_insert_ne c c' x w :
  c' <> c -> conn_of (set_conns (<[c' := x]> (conns w)) w) c = conn_of w c.
Proof. intros Hne. unfold conn_of. cbn. by rewrite lookup_insert_ne. Qed.

Lemma conn_of_fresh c w :
  conn_of (set_conns (<[fresh (dom (conns w)) := new_conn]> (conns w)) w) c = conn_of w c.
Proof.
  unfold conn_of. cbn.
  destruct (decide (fresh (dom (conns w)) = c)) as [<-|Hne].
  - rewrite lookup_insert_eq.
    by rewrite (not_elem_of_dom_1 (conns w) _ (is_fresh (dom (conns w)))).
  - by rewrite lookup_insert_ne.
Qed.

Lemma inbox_send_ne c c' msg w :
  c' <> c -> inbox c (set_sent (sent w ++ [(c', msg)]) w) = inbox c w.
Proof.
  intros Hne. unfold inbox. cbn. rewrite List.filter_app. cbn.
  apply Nat.eqb_neq in Hne. rewrite Hne. cbn. by rewrite app_nil_r.
Qed.

(** One turn of a broadcast. *)
Lemma quiet_turn c c' (k : bool) msg :
  within (quiet c)
    (authed ← get (fun w => isAuthed (conn_of w c'));
     if k && authed then send c' msg else mret tt).
Proof.
  intros w Hw. unfold send. run.
  destruct (decide (c' = c)) as [->|Hne].
  - rewrite Hw, andb_false_r. by cbn.
  - destruct (k && isAuthed (conn_of w c')); cbn; [|done].
    split; [done|]. by apply inbox_send_ne.
Qed.

Section Handlers.
Context `{Engine}.

#[local] Opaque M_bind M_ret M_fmap modify get throw.

(** What a handler that runs for [c'] does to another connection [c]. *)
Ltac other_session :=
  first [ reflexivity
        | by apply conn_of_insert_ne
        | apply conn_of_fresh ].

Lemma incoming_unchanged c c' f :
  c' <> c -> within (unchanged (fun w => conn_of w c)) (incoming c' f).
Proof. intros Hne. program. within_all fail other_session. Qed.

Lemma compare_done_unchanged c c' msg err same randomBytes :
  c' <> c ->
  within (unchanged (fun w => conn_of w c)) (compare_done c' msg err same randomBytes).
Proof. intros Hne. program. within_all fail other_session. Qed.

Lemma lookup_done_unchanged c c' params pipeline cb err :
  within (unchanged (fun w => conn_of w c)) (lookup_done c' params pipeline cb err).
Proof. program. within_all fail other_session. Qed.

Lemma polls_unchanged c e :
  match e with Connection | StatusDone _ | NetifDone _ _ => True | _ => False end ->
  within (unchanged (fun w => conn_of w c)) (handler e).
Proof.
  intros He. destruct e; try done; program; within_all fail other_session.
Qed.

(** What a handler that runs for [c'] sends to another connection [c],
    not authenticated. *)
Ltac not_for_me :=
  let Hw := fresh in
  intros Hw; split;
    [ first [ exact Hw
            | by rewrite conn_of_insert_ne
            | etrans; [apply (f_equal isAuthed), conn_of_fresh | exact Hw] ]
    | first [ reflexivity | by apply inbox_send_ne ] ].

Ltac turn := first [ apply (quiet_turn _ _ true) | apply quiet_turn ].

Lemma incoming_quiet c c' f : c' <> c -> within (quiet c) (incoming c' f).
Proof.
  intros Hne. program. within_all turn not_for_me.
Qed.

Lemma compare_done_quiet c c' msg err same randomBytes :
  c' <> c -> within (quiet c) (compare_done c' msg err same randomBytes).
Proof. intros Hne. program. within_all turn not_for_me. Qed.

Lemma lookup_done_quiet c c' params pipeline cb err :
  c' <> c -> within (quiet c) (lookup_done c' params pipeline cb err).
Proof. intros Hne. program. within_all turn not_for_me. Qed.

Lemma polls_quiet c e :
  match e with Connection | StatusDone _ | NetifDone _ _ => True | _ => False end ->
  within (quiet c) (handler e).
Proof. intros He. destruct e; try done; program; within_all turn not_for_me. Qed.

End Handlers.

Section Privacy.
Context `{Engine}.

(** X10.  An event changes the session state of the connection it runs
    for, and of no other: the authentication flag and the token of every
    other connection are as they were. *)
Theorem sessions_private e c w w' :
  originator e w <> Some c ->
  step e w = Some w' ->
  conn_of w' c = conn_of w c.
Proof.
  intros Hor Hstep.
  destruct e as [|c' f|i err same randomBytes|i err|error|error newints].
  - exact (within_handler (unchanged (fun w => conn_of w c)) _ w w' (polls_unchanged c Connection I) Hstep).
  - assert (c' <> c) as Hne by (intros ->; by apply Hor).
    exact (within_handler (unchanged (fun w => conn_of w c)) (Incoming c' f) w w'
             (incoming_unchanged c c' f Hne) Hstep).
  - unfold step, handler in Hstep. cbn in Hor. revert Hstep. run.
    destruct (pending w !! i) as [[c' msg|]|] eqn:Hi; run; [|intros; by simplify_eq..].
    assert (c' <> c) as Hne by (intros ->; by apply Hor).
    intros Hstep.
    pose proof (compare_done_unchanged c c' msg err same randomBytes Hne
                  (set_pending (delete i (pending w)) w)) as Hk.
    destruct (compare_done _ _ _ _ _ _); by simplify_eq.
  - unfold step, handler in Hstep. revert Hstep. run.
    destruct (pending w !! i) as [[|c' params pipeline cb]|] eqn:Hi; run;
      [intros; by simplify_eq| |intros; by simplify_eq].
    intros Hstep.
    pose proof (lookup_done_unchanged c c' params pipeline cb err
                  (set_pending (delete i (pending w)) w)) as Hk.
    destruct (lookup_done _ _ _ _ _ _); by simplify_eq.
  - exact (within_handler (unchanged (fun w => conn_of w c)) _ w w' (polls_unchanged c (StatusDone error) I) Hstep).
  - exact (within_handler (unchanged (fun w => conn_of w c)) _ w w' (polls_unchanged c (NetifDone error newints) I) Hstep).
Qed.

(** X11.  A connection that has not authenticated is sent nothing, and
    stays unauthenticated, through any event that does not run on its
    behalf: broadcasts, replies to other sessions and the polls all pass
    it by. *)
Theorem unauthenticated_receives_nothing e c w w' :
  originator e w <> Some c ->
  isAuthed (conn_of w c) = false ->
  step e w = Some w' ->
  isAuthed (conn_of w' c) = false /\ inbox c w' = inbox c w.
Proof.
  intros Hor Hc Hstep. revert Hc. change (quiet c w w').
  destruct e as [|c' f|i err same randomBytes|i err|error|error newints].
  - exact (within_handler (quiet c) _ w w' (polls_quiet c Connection I) Hstep).
  - assert (c' <> c) as Hne by (intros ->; by apply Hor).
    exact (within_handler (quiet c) (Incoming c' f) w w' (incoming_quiet c c' f Hne) Hstep).
  - unfold step, handler in Hstep. cbn in Hor. revert Hstep. run.
    destruct (pending w !! i) as [[c' msg|]|] eqn:Hi; run;
      [|intros; simplify_eq; reflexivity..].
    assert (c' <> c) as Hne by (intros ->; by apply Hor).
    intros Hstep.
    pose proof (compare_done_quiet c c' msg err same randomBytes Hne
                  (set_pending (delete i (pending w)) w)) as Hk.
    destruct (compare_done _ _ _ _ _ _); by simplify_eq.
  - unfold step, handler in Hstep. cbn in Hor. revert Hstep. run.
    destruct (pending w !! i) as [[|c' params pipeline cb]|] eqn:Hi; run;
      [intros; simplify_eq; reflexivity| |intros; simplify_eq; reflexivity].
    assert (c' <> c) as Hne by (intros ->; by apply Hor).
    intros Hstep.
    pose proof (lookup_done_quiet c c' params pipeline cb err Hne
                  (set_pending (delete i (pending w)) w)) as Hk.
    destruct (lookup_done _ _ _ _ _ _); by simplify_eq.
  - exact (within_handler (quiet c) _ w w' (polls_quiet c (StatusDone error) I) Hstep).
  - exact (within_handler (quiet c) _ w w' (polls_quiet c (NetifDone error newints) I) Hstep).
Qed.

End Privacy.

Lemma sessions_private_witness :
  let e := Incoming 0 (Json (VObj [("logout", VNull)])) in
  originator e world2 <> Some 1 /\
  exists w',
    @step example_engine e world2 = Some w' /\
    conn_of w' 1 = conn_of world2 1.
Proof.
  intros e.
  assert (originator e world2 <> Some 1) as Hor by discriminate.
  split; [exact Hor|].
  eexists. split; [reflexivity|].
  apply (@sessions_private example_engine e 1 world2); [exact Hor|reflexivity].
Defined.

Lemma unauthenticated_receives_nothing_witness :
  let e := StatusDone (Some "Command failed") in
  originator e world2 <> Some 2 /\
  isAuthed (conn_of world2 2) = false /\
  exists w',
    @step example_engine e world2 = Some w' /\
    isAuthed (conn_of w' 2) = false /\ inbox 2 w' = inbox 2 world2.
Proof.
  intros e.
  assert (originator e world2 <> Some 2) as Hor by discriminate.
  split; [exact Hor|]. split; [reflexivity|].
  eexists. split; [reflexivity|].
  apply (@unauthenticated_receives_nothing example_engine e 2 world2);
    [exact Hor|reflexivity|reflexivity].
Defined.

(** ** No callback throws *)

Section Callable.
Context `{Engine}.

#[local] Opaque M_bind M_ret M_fmap modify get throw.





End Callable.

Section Running.
Context `{Engine}.




End Running.

